(** * A shallow embedding of [main.py]: the NASA image pipeline

    [main.py] fetches a JSON array from a catalog API, keeps the items whose
    [media_type] is ["image"], downloads every kept item concurrently
    ([asyncio.gather] over [download_image] coroutines), and analyses every
    saved file in a process pool ([detect_stars_and_process]), gathering one
    summary string per file.

    The embedding is a state-and-exception monad over a [world] made of the
    file system, the console and the [tqdm] progress bars.  Everything the
    program does not define itself (the HTTP peer, the disk's willingness to
    be written, the OpenCV routines, the [config] module) is a field of the
    class [Externals].  Concurrency is modelled by a schedule: the order in
    which the gathered tasks complete.  The tasks of a gathering are
    started in the order of the list, and each runs up to its first
    suspension before any of them completes: that is where a download
    calls [session.get], so the requests go out in item order.  From there
    on a task touches the shared world only through its own file, its own
    printed line and the bar, so letting the rest of each task run in one
    piece, in completion order, reaches every final world that a finer
    interleaving reaches. *)

From Stdlib Require Import Ascii QArith.QArith_base.
From stdpp Require Import base gmap list strings pretty.

Local Open Scope string_scope.
Local Open Scope list_scope.
Local Open Scope nat_scope.

(** ** Python values coming out of [response.json()] *)

(** JSON [null] is Python's [None]; a JSON object is a [dict]; a float is
    carried as a rational, since the program only ever looks at whether a
    value is truthy or equal to a string. *)
#[warnings="-register-all"] Inductive jvalue : Type :=
  | JNull
  | JBool (b : bool)
  | JInt (n : Z)
  | JFloat (q : Q)
  | JStr (s : string)
  | JArr (l : list jvalue)
  | JObj (m : gmap string jvalue).

(** [dict.get(key)]: the value, or [None] when the key is absent. *)
Definition dict_get (key : string) (d : gmap string jvalue) : jvalue :=
  default JNull (d !! key).

(** Python truthiness, [bool(v)]. *)
Definition truthy (v : jvalue) : bool :=
  match v with
  | JNull => false
  | JBool b => b
  | JInt n => negb (n =? 0)%Z
  | JFloat q => negb (Qnum q =? 0)%Z
  | JStr s => negb (String.eqb s "")
  | JArr l => negb (bool_decide (l = []))
  | JObj m => negb (bool_decide (m = ∅))
  end.

(** [a or b]: [a] when it is truthy, otherwise [b]. *)
Definition py_or (a b : jvalue) : jvalue := if truthy a then a else b.

(** [v == s] for a string literal [s]: only a [str] with the same
    characters compares equal. *)
Definition eq_str (v : jvalue) (s : string) : bool :=
  match v with
  | JStr t => String.eqb t s
  | _ => false
  end.

(** ** Exceptions and results *)

(** An exception of class [Exception] (or a subclass), carried as the text
    that [str(e)] prints.  What [except Exception] does not catch
    (cancellation, a keyboard interrupt) is outside the model. *)
Definition exn : Type := string.

Inductive res (A : Type) : Type :=
  | Ret (a : A)
  | Raise (e : exn).
Arguments Ret {A} a.
Arguments Raise {A} e.

(** ** The world *)

(** A [tqdm] bar: its [total], its labels, the running count [n] and
    whether [close()] was called. *)
Record tqdm : Type := Tqdm {
  total : nat;
  desc : string;
  unit_ : string;
  n : nat;
  closed : bool
}.

Record world : Type := World {
  fs : gmap string (list Byte.byte);  (* path -> file content *)
  stdout : list string;               (* one entry per [print] call *)
  bars : list tqdm;                   (* the tqdm objects, by handle *)
  requests : list jvalue              (* the URL of every [session.get],
                                         in the order of the calls *)
}.

Definition set_fs
    (f : gmap string (list Byte.byte) → gmap string (list Byte.byte))
    (w : world) : world :=
  World (f (fs w)) (stdout w) (bars w) (requests w).
Definition set_stdout (f : list string → list string) (w : world) : world :=
  World (fs w) (f (stdout w)) (bars w) (requests w).
Definition set_bars (f : list tqdm → list tqdm) (w : world) : world :=
  World (fs w) (stdout w) (f (bars w)) (requests w).
Definition set_requests (f : list jvalue → list jvalue) (w : world) : world :=
  World (fs w) (stdout w) (bars w) (f (requests w)).

(** ** The monad: state passing with exceptions *)

Definition M (A : Type) : Type := world → res A * world.

Definition ret {A} (a : A) : M A := λ w, (Ret a, w).
Definition raise {A} (e : exn) : M A := λ w, (Raise e, w).
Definition bind {A B} (m : M A) (k : A → M B) : M B :=
  λ w, match m w with
       | (Ret a, w') => k a w'
       | (Raise e, w') => (Raise e, w')
       end.
(** [try: body except Exception as e: handler(e)] *)
Definition try_except {A} (body : M A) (handler : exn → M A) : M A :=
  λ w, match body w with
       | (Ret a, w') => (Ret a, w')
       | (Raise e, w') => handler e w'
       end.
(** Lifting the outcome of an external call. *)
Definition lift {A} (r : exn + A) : M A :=
  match r with
  | inl e => raise e
  | inr a => ret a
  end.

(** The monad operations are registered with stdpp's classes, so that the
    embedding can be written with [x ← m; k] and [m;; k]. *)
#[global] Instance M_ret : MRet M := @ret.
#[global] Instance M_bind : MBind M := λ A B k m, bind m k.

(** ** Console and progress bars *)

Definition print (line : string) : M () :=
  λ w, (Ret (), set_stdout (λ out, out ++ [line]) w).

(** [tqdm(total=..., desc=..., unit=...)]: a fresh bar, returned by handle. *)
Definition tqdm_new (total : nat) (desc unit_ : string) : M nat :=
  λ w, (Ret (length (bars w)),
        set_bars (λ bs, bs ++ [Tqdm total desc unit_ 0 false]) w).

Definition tqdm_update_bar (k : nat) (b : tqdm) : tqdm :=
  Tqdm (total b) (desc b) (unit_ b) (n b + k) (closed b).
Definition tqdm_close_bar (b : tqdm) : tqdm :=
  Tqdm (total b) (desc b) (unit_ b) (n b) true.

(** [pbar.update(k)] *)
Definition pbar_update (pbar : nat) (k : nat) : M () :=
  λ w, (Ret (), set_bars (alter (tqdm_update_bar k) pbar) w).
(** [pbar.close()] *)
Definition pbar_close (pbar : nat) : M () :=
  λ w, (Ret (), set_bars (alter tqdm_close_bar pbar) w).

(** The count shown by bar [pbar]. *)
Definition counter (pbar : nat) (w : world) : nat :=
  from_option n 0 (bars w !! pbar).

(** ** Paths and file names *)

(** The line feed that starts some of the printed lines. *)
Definition nl : string := String (ascii_of_nat 10) "".

(** [os.path.join(dir, name)] on a POSIX system: an absolute [name] wins;
    otherwise the separator is added unless [dir] is empty or already ends
    with one. *)
Definition starts_with_slash (s : string) : bool :=
  match s with
  | String c _ => Ascii.eqb c "/"%char
  | EmptyString => false
  end.
Fixpoint ends_with_slash (s : string) : bool :=
  match s with
  | EmptyString => false
  | String c EmptyString => Ascii.eqb c "/"%char
  | String _ s' => ends_with_slash s'
  end.
Definition path_join (dir name : string) : string :=
  if starts_with_slash name then name
  else if String.eqb dir "" || ends_with_slash dir then dir +:+ name
  else dir +:+ "/" +:+ name.

(** [f"space_{i}.jpg"] *)
Definition space_name (i : nat) : string := "space_" +:+ pretty i +:+ ".jpg".

(** The part of a path after its last slash, when it has a slash. *)
Fixpoint after_slash (s : string) : option string :=
  match s with
  | EmptyString => None
  | String c s' =>
      match after_slash s' with
      | Some t => Some t
      | None => if Ascii.eqb c "/" then Some s' else None
      end
  end.

(** What [path_join] puts in front of a relative name. *)
Definition dir_prefix (dir : string) : string :=
  if String.eqb dir "" || ends_with_slash dir then dir else dir +:+ "/".

(** ** Futures and [asyncio.gather] *)

(** A future: what its task does when it is started, up to its first
    suspension; the work that resolves it, from there on; and the callbacks
    registered with [add_done_callback], in registration order. *)
Record future (A : Type) : Type := Future {
  started : M ();
  job : M A;
  done_callbacks : list (M ())
}.
Arguments Future {A} started job done_callbacks.
Arguments started {A} f.
Arguments job {A} f.
Arguments done_callbacks {A} f.

(** [asyncio] starts the task of a coroutine by running the coroutine up
    to its first suspension; the rest runs when what the task waits for
    has arrived.  The coroutines this program gathers are calls of
    [download_image], which calls [session.get] on entry (line 20, the
    first statement of its body), waits for the answer, and calls
    [session.get] nowhere else.  A coroutine is embedded as one function
    of the world, not as a sequence of steps, so the two parts are taken
    from what the coroutine does as a whole: its first step is what it
    adds to the request log, its later steps are everything else it
    does.  For [download_image], the first step followed by the later
    steps is the coroutine itself (lemma [download_image_steps]). *)
Definition first_step {A} (m : M A) : M () :=
  λ w, (Ret (), set_requests (λ _, requests (m w).2) w).
Definition later_steps {A} (m : M A) : M A :=
  λ w, let '(r, w') := m w in (r, set_requests (λ _, requests w) w').

(** A coroutine handed to [gather] is wrapped in a task: a future without
    callbacks. *)
Definition coroutine {A} (m : M A) : future A :=
  Future (first_step m) (later_steps m) [].

(** [loop.run_in_executor(executor, f, x)]: the future of a job of the
    pool.  The call [f(x)] runs in a worker process; in this process
    nothing happens before the future completes. *)
Definition run_in_executor {A} (m : M A) : future A := Future (mret ()) m [].

Definition add_done_callback {A} (fut : future A) (cb : M ()) : future A :=
  Future (started fut) (job fut) (done_callbacks fut ++ [cb]).

(** Running [m] and handing its outcome over as a value. *)
Definition attempt {A} (m : M A) : M (res A) :=
  λ w, let '(r, w') := m w in (Ret r, w').

Definition run_callbacks (cbs : list (M ())) : M () :=
  foldr (λ cb k, cb;; k) (mret ()) cbs.

(** A schedule is a list of choices: its head, modulo the number of tasks
    still pending, selects the pending task that completes next.  Every
    list is a schedule (a missing choice counts as 0), and every completion
    order arises from some schedule. *)
Fixpoint pick_order (fuel : nat) (pending sched : list nat) : list nat :=
  match fuel with
  | 0 => []
  | S fuel' =>
      let k := hd 0 sched `mod` length pending in
      match pending !! k with
      | Some i => i :: pick_order fuel' (delete k pending) (tail sched)
      | None => []
      end
  end.
Definition completion_order (sched : list nat) (count : nat) : list nat :=
  pick_order count (seq 0 count) sched.

(** The tasks are started in the order of the list. *)
Definition start_all {A} (futs : list (future A)) : M () :=
  foldr (λ fut k, started fut;; k) (mret ()) futs.

(** A future completes: its work runs, then its callbacks, whatever the
    outcome of the work. *)
Definition settle {A} (fut : future A) : M (res A) :=
  r ← attempt (job fut);
  run_callbacks (done_callbacks fut);;
  mret r.

(** The tasks complete in the given order.  A completed task stores its
    result in its own slot; the first task that raises makes the gathering
    [await] raise. *)
Fixpoint run_order {A} (futs : list (future A)) (order : list nat)
    (slots : list (option A)) : M (list (option A)) :=
  match order with
  | [] => mret slots
  | i :: order' =>
      match futs !! i with
      | None => run_order futs order' slots
      | Some fut =>
          r ← settle fut;
          match r with
          | Ret a => run_order futs order' (<[i:=Some a]> slots)
          | Raise e => raise e
          end
      end
  end.

(** [await asyncio.gather] over [futs]: the results, in the order of
    [futs].  Every task is started before the first one completes.  The
    outer future resolves when every slot is filled, which is the case
    once the completion order has gone through all the tasks. *)
Definition gather {A} (futs : list (future A)) (sched : list nat) : M (list A) :=
  start_all futs;;
  slots ← run_order futs (completion_order sched (length futs))
            (replicate (length futs) None);
  match mapM id slots with
  | Some results => mret results
  | None => raise "gather: a task is still pending"
  end.

(** The slots while the tasks complete: one per task, and the slot of each
    completed task holds a result that satisfies [Q]. *)
Definition slots_ok {A} (futs : list (future A)) (Q : nat → A → Prop)
    (done : list nat) (slots : list (option A)) : Prop :=
  length slots = length futs ∧
  ∀ i, i ∈ done → ∃ a, slots !! i = Some (Some a) ∧ Q i a.

(** ** What the program takes from outside *)

(** [aiohttp]'s response object, as far as the program reads it. *)
Record response : Type := Response {
  status : Z;
  read : exn + list Byte.byte;   (* [await response.read()] *)
  json : exn + jvalue            (* [await response.json()] *)
}.

(** [aiohttp.ClientSession]: [get url params] either raises or yields a
    response.  The URL is whatever Python value the caller passes. *)
Record session : Type := Session {
  get : jvalue → list (string * jvalue) → exn + response
}.

(** What happens when a file is opened with mode ["wb"] and written. *)
Inductive write_fate : Type :=
  | Written
  | OpenRaises (e : exn)
  | WriteRaises (e : exn) (flushed : nat).

(** [session.get(url, params=params)]: the request goes out, and either
    raises or yields the response. *)
Definition session_get (session : session) (url : jvalue)
    (params : list (string * jvalue)) : M response :=
  λ w, (match get session url params with
        | inl e => Raise e
        | inr response => Ret response
        end, set_requests (λ sent, sent ++ [url]) w).

(** The [config] module, the network, the disk and the OpenCV routines.
    OpenCV is taken to return normally on whatever [cv2.imread] has
    loaded; [cv2.imread] itself answers [None] for a file it cannot load. *)
Class Externals : Type := {
  SAVE_DIR : string;
  PROCESSED_DIR : string;
  NASA_API_KEY : string;
  BASE_URL : string;
  ClientSession : session;
  disk : string → list Byte.byte → write_fate;
  image : Type;
  keypoint : Type;
  (* decoding done by [cv2.imread] *)
  imdecode : list Byte.byte → option image;
  (* [cv2.cvtColor(img, cv2.COLOR_BGR2GRAY)] *)
  cvtColor_BGR2GRAY : image → image;
  (* [SimpleBlobDetector_create(params).detect], white blobs, minArea 10 *)
  blob_detect : image → list keypoint;
  (* [cv2.drawKeypoints(img, keypoints, None, (0,0,255), RICH_KEYPOINTS)] *)
  drawKeypoints : image → list keypoint → image;
  (* the bytes [cv2.imwrite] puts at a path, or [None] when it returns
     [False] and writes nothing *)
  imencode : string → image → option (list Byte.byte)
}.

Section Pipeline.
Context {ext : Externals}.

(** [async with aiofiles.open(path, "wb") as f: await f.write(content)] *)
Definition save_file (path : string) (content : list Byte.byte) : M () :=
  λ w, match disk path content with
       | Written => (Ret (), set_fs <[path:=content]> w)
       | OpenRaises e => (Raise e, w)
       | WriteRaises e flushed =>
           (Raise e, set_fs <[path:=take flushed content]> w)
       end.

(** [download_image(session, url, filename, pbar)], lines 16-32.  The
    [else] branch prints and falls off the end of the function; the
    handler's [pbar.update(1)] and [return None] belong to the [except]
    block. *)
Definition download_image (session : session) (url : jvalue)
    (filename : string) (pbar : nat) : M (option string) :=
  try_except
    (response ← session_get session url [];
     if (status response =? 200)%Z then
       content ← lift (read response);
       save_file (path_join SAVE_DIR filename) content;;
       pbar_update pbar 1;;
       mret (Some filename)
     else
       print ("Failed to download " +:+ filename +:+ ": "
              +:+ pretty (status response));;
       mret None)
    (λ e,
       print ("Error downloading " +:+ filename +:+ ": " +:+ e);;
       pbar_update pbar 1;;
       mret None).

(** [cv2.imread(path)] *)
Definition imread (path : string) : M (option image) :=
  λ w, (Ret (fs w !! path ≫= imdecode), w).

(** [cv2.imwrite(path, img)]; the program ignores the returned flag. *)
Definition imwrite (path : string) (img : image) : M () :=
  λ w, match imencode path img with
       | Some content => (Ret (), set_fs <[path:=content]> w)
       | None => (Ret (), w)
       end.

(** [detect_stars_and_process(filename)], lines 37-64. *)
Definition detect_stars_and_process (filename : string) : M string :=
  let input_path := path_join SAVE_DIR filename in
  let output_path := path_join PROCESSED_DIR ("detected_" +:+ filename) in
  img ← imread input_path;
  match img with
  | None => mret ("Error loading " +:+ filename)
  | Some img =>
      let gray := cvtColor_BGR2GRAY img in
      let keypoints := blob_detect gray in
      let img_with_keys := drawKeypoints img keypoints in
      imwrite output_path img_with_keys;;
      mret ("Found " +:+ pretty (length keypoints) +:+ " stars in "
            +:+ filename)
  end.

(** Line 78, the test: [item.get("media_type") == "image"]. *)
Definition is_image (item : gmap string jvalue) : bool :=
  eq_str (dict_get "media_type" item) "image".

(** Line 78: [[item for item in data if item.get("media_type") == "image"]]
    over a list [data].  An element that is not a [dict] has no [get]. *)
Fixpoint image_items (data : list jvalue) : exn + list (gmap string jvalue) :=
  match data with
  | [] => inr []
  | JObj item :: rest =>
      match image_items rest with
      | inl e => inl e
      | inr items =>
          inr (if is_image item then item :: items else items)
      end
  | _ :: _ => inl "AttributeError: object has no attribute 'get'"
  end.

(** The same comprehension over any JSON value: a [dict] iterates over its
    keys and a [str] over its characters, which are strings without
    [get]; the other values are not iterable. *)
Definition valid_items_of (data : jvalue) : exn + list (gmap string jvalue) :=
  match data with
  | JArr l => image_items l
  | JObj m =>
      if bool_decide (m = ∅) then inr []
      else inl "AttributeError: 'str' object has no attribute 'get'"
  | JStr s =>
      if String.eqb s "" then inr []
      else inl "AttributeError: 'str' object has no attribute 'get'"
  | _ => inl "TypeError: object is not iterable"
  end.

(** Line 86: [item.get("hdurl") or item.get("url")] *)
Definition item_url (item : gmap string jvalue) : jvalue :=
  py_or (dict_get "hdurl" item) (dict_get "url" item).

(** Lines 84-87: one coroutine per item, named by its position. *)
Definition download_tasks (session : session)
    (valid_items : list (gmap string jvalue)) (download_pbar : nat)
    : list (M (option string)) :=
  imap (λ i item, download_image session (item_url item) (space_name i)
                    download_pbar) valid_items.

(** Lines 82-90, the Download Stage. *)
Definition download_stage (session : session)
    (valid_items : list (gmap string jvalue)) (sched : list nat)
    : M (list (option string)) :=
  download_pbar ← tqdm_new (length valid_items) "Downloading" "img";
  let tasks := download_tasks session valid_items download_pbar in
  download_files ← gather (coroutine <$> tasks) sched;
  pbar_close download_pbar;;
  mret download_files.

(** Line 93: [[f for f in download_files if f]]; [None] and the empty
    string are falsy. *)
Definition keep_saved (download_files : list (option string)) : list string :=
  omap (λ f, match f with
             | Some name => if String.eqb name "" then None else Some name
             | None => None
             end) download_files.

(** Lines 100-115, the Analysis Stage. *)
Definition analysis_stage (downloaded_files : list string) (sched : list nat)
    : M (list string) :=
  pbar ← tqdm_new (length downloaded_files) "Analyzing" "img";
  let results :=
    (λ fname, add_done_callback
                (run_in_executor (detect_stars_and_process fname))
                (pbar_update pbar 1)) <$> downloaded_files in
  analysis_summaries ← gather results sched;
  pbar_close pbar;;
  mret analysis_summaries.

(** Lines 71-78: the metadata request, its JSON body, the image filter.
    Anything raised here leaves [main]. *)
Definition fetch_valid_items (session : session)
    : M (list (gmap string jvalue)) :=
  let params := [("api_key", JStr NASA_API_KEY); ("count", JInt 10)] in
  response ← session_get session (JStr BASE_URL) params;
  data ← lift (json response);
  lift (valid_items_of data).

(** [main()], lines 67-119.  The two schedules say in which order the
    downloads and the analysis jobs complete.  The Python function returns
    nothing; the embedding hands back [analysis_summaries], the list the
    final loop prints. *)
Definition main (sched_download sched_analysis : list nat) : M (list string) :=
  let session := ClientSession in
  valid_items ← fetch_valid_items session;
  print (nl +:+ "📡 Requesting " +:+ pretty (length valid_items)
         +:+ " images from NASA...");;
  download_files ← download_stage session valid_items sched_download;
  let downloaded_files := keep_saved download_files in
  print (nl +:+ "🔭 Analyzing imagery with OpenCV on all CPU cores...");;
  analysis_summaries ← analysis_stage downloaded_files sched_analysis;
  print (nl +:+ "✨ Project Summary! 🚀");;
  foldr (λ summary k, print ("🔍 " +:+ summary);; k) (mret ())
    analysis_summaries;;
  mret analysis_summaries.

(** The URL that the sentence "[hdurl] if that field is present, and
    otherwise [url]" describes, for comparison with [item_url]. *)
Definition claimed_url (item : gmap string jvalue) : jvalue :=
  match item !! "hdurl" with
  | Some v => v
  | None => dict_get "url" item
  end.

(** ** How one download ends *)

(** The three ways through [download_image], read off the answers of the
    network and the disk: the body was saved; the status was not 200; or
    something raised inside the [try] block ([partial] is what a failing
    write left in the file, if it got as far as opening it). *)
Inductive fate : Type :=
  | Saved (content : list Byte.byte)
  | Refused (code : Z)
  | Crashed (e : exn) (partial : option (list Byte.byte)).

Definition download_fate (session : session) (url : jvalue)
    (filename : string) : fate :=
  match get session url [] with
  | inl e => Crashed e None
  | inr response =>
      if (status response =? 200)%Z then
        match read response with
        | inl e => Crashed e None
        | inr content =>
            match disk (path_join SAVE_DIR filename) content with
            | Written => Saved content
            | OpenRaises e => Crashed e None
            | WriteRaises e flushed => Crashed e (Some (take flushed content))
            end
        end
      else Refused (status response)
  end.

(** An exception [e] is raised inside the [try] block: by the request, by
    reading the body, by opening the file or by writing it. *)
Inductive raises_in_try (session : session) (url : jvalue)
    (filename : string) (e : exn) : Prop :=
  | get_raises :
      get session url [] = inl e →
      raises_in_try session url filename e
  | read_raises response :
      get session url [] = inr response → status response = 200%Z →
      read response = inl e →
      raises_in_try session url filename e
  | open_raises response content :
      get session url [] = inr response → status response = 200%Z →
      read response = inr content →
      disk (path_join SAVE_DIR filename) content = OpenRaises e →
      raises_in_try session url filename e
  | write_raises response content flushed :
      get session url [] = inr response → status response = 200%Z →
      read response = inr content →
      disk (path_join SAVE_DIR filename) content = WriteRaises e flushed →
      raises_in_try session url filename e.

(** The fate of the [i]-th filtered item. *)
Definition item_fate (session : session) (i : nat)
    (item : gmap string jvalue) : fate :=
  download_fate session (item_url item) (space_name i).

(** What the coroutine returns: the file name when saved, [None] otherwise. *)
Definition fate_result (f : fate) (filename : string) : option string :=
  match f with Saved _ => Some filename | _ => None end.

Definition is_saved (f : fate) : bool :=
  match f with Saved _ => true | _ => false end.
Definition is_refused (f : fate) : bool :=
  match f with Refused _ => true | _ => false end.

(** Whether position [i] of the filtered sequence was saved, and whether
    its request was answered with a status other than 200. *)
Definition saved_at (session : session) (items : list (gmap string jvalue))
    (i : nat) : bool :=
  from_option (λ item, is_saved (item_fate session i item)) false (items !! i).
Definition refused_at (session : session) (items : list (gmap string jvalue))
    (i : nat) : bool :=
  from_option (λ item, is_refused (item_fate session i item)) false
    (items !! i).

(** The handle the next [tqdm(...)] call returns. *)
Definition next_bar (w : world) : nat := length (bars w).

End Pipeline.

(** ** A small concrete run *)

Module Demo.

Definition api_url : string := "https://api.example/planetary/apod".
Definition good_url : string := "https://img.example/a.jpg".
Definition gone_url : string := "https://img.example/gone.jpg".

Definition image_item (fields : list (string * jvalue)) : gmap string jvalue :=
  list_to_map (("media_type", JStr "image") :: fields).

(** An image that downloads, one whose server answers 404, one whose host
    cannot be reached, and a video. *)
Definition item_good : gmap string jvalue := image_item [("url", JStr good_url)].
Definition item_gone : gmap string jvalue := image_item [("url", JStr gone_url)].
Definition item_down : gmap string jvalue :=
  image_item [("url", JStr "https://down.example/b.jpg")].
Definition item_video : gmap string jvalue :=
  list_to_map [("media_type", JStr "video"); ("url", JStr good_url)].
(** An image whose [hdurl] is present but empty. *)
Definition item_empty_hd : gmap string jvalue :=
  image_item [("hdurl", JStr ""); ("url", JStr good_url)].

Definition data : jvalue :=
  JArr [JObj item_good; JObj item_video; JObj item_gone; JObj item_down].

Definition demo_session : session :=
  Session (λ url _,
    match url with
    | JStr u =>
        if String.eqb u api_url then
          inr (Response 200 (inr []) (inr data))
        else if String.eqb u good_url then
          inr (Response 200 (inr [Byte.x01; Byte.x02]) (inl "not JSON"))
        else if String.eqb u gone_url then
          inr (Response 404 (inr []) (inl "not JSON"))
        else inl "Cannot connect to host"
    | _ => inl "TypeError: Constructor parameter should be str"
    end).

(** A disk that accepts every write, and a toy OpenCV: an image is its
    non-empty byte string and has one keypoint per byte. *)
#[local] Instance externals : Externals := {|
  SAVE_DIR := "images";
  PROCESSED_DIR := "processed";
  NASA_API_KEY := "DEMO_KEY";
  BASE_URL := api_url;
  ClientSession := demo_session;
  disk := λ _ _, Written;
  image := list Byte.byte;
  keypoint := nat;
  imdecode := λ content, if bool_decide (content = []) then None else Some content;
  cvtColor_BGR2GRAY := λ img, img;
  blob_detect := λ img, seq 0 (length img);
  drawKeypoints := λ img _, img;
  imencode := λ _ img, Some img
|}.

Definition world0 : world := World ∅ [] [] [].

(** A world in which [space_0.jpg] is on disk but is not an image. *)
Definition world_corrupt : world :=
  World {[ "images/space_0.jpg" := [] ]} [] [] [].

(** A world in which [space_0.jpg] is an image of two bytes and
    [space_1.jpg] is on disk but is not an image. *)
Definition world_mixed : world :=
  World (<[ "images/space_0.jpg" := [Byte.x01; Byte.x02] ]>
           {[ "images/space_1.jpg" := [] ]}) [] [] [].

(** A world with two downloaded images, of two bytes and of one. *)
Definition world_two : world :=
  World (<[ "images/space_0.jpg" := [Byte.x01; Byte.x02] ]>
           {[ "images/space_1.jpg" := [Byte.x01] ]}) [] [] [].

(** The same collaborators behind an API host that cannot be reached. *)
#[local] Instance externals_offline : Externals := {|
  SAVE_DIR := "images";
  PROCESSED_DIR := "processed";
  NASA_API_KEY := "DEMO_KEY";
  BASE_URL := "https://down.example/planetary/apod";
  ClientSession := demo_session;
  disk := λ _ _, Written;
  image := list Byte.byte;
  keypoint := nat;
  imdecode := λ content, if bool_decide (content = []) then None else Some content;
  cvtColor_BGR2GRAY := λ img, img;
  blob_detect := λ img, seq 0 (length img);
  drawKeypoints := λ img _, img;
  imencode := λ _ img, Some img
|}.

(** A disk whose write of [space_0.jpg] fails after one byte. *)
#[local] Instance externals_disk_fault : Externals := {|
  SAVE_DIR := "images";
  PROCESSED_DIR := "processed";
  NASA_API_KEY := "DEMO_KEY";
  BASE_URL := api_url;
  ClientSession := demo_session;
  disk := λ path _,
    if String.eqb path "images/space_0.jpg"
    then WriteRaises "No space left on device" 1 else Written;
  image := list Byte.byte;
  keypoint := nat;
  imdecode := λ content, if bool_decide (content = []) then None else Some content;
  cvtColor_BGR2GRAY := λ img, img;
  blob_detect := λ img, seq 0 (length img);
  drawKeypoints := λ img _, img;
  imencode := λ _ img, Some img
|}.

End Demo.

(** ** What a run leaves behind *)

Section Outcomes.
Context {ext : Externals}.

(** Where the [i]-th download is saved (line 23), and where the annotated
    copy of a file is written (line 40). *)
Definition target_path (i : nat) : string := path_join SAVE_DIR (space_name i).
Definition output_path (filename : string) : string :=
  path_join PROCESSED_DIR ("detected_" +:+ filename).

(** The line [download_image] prints, by fate: nothing when the body was
    saved (line 28 and line 30 are the only [print] calls). *)
Definition failure_line (f : fate) (filename : string) : option string :=
  match f with
  | Saved _ => None
  | Refused code =>
      Some ("Failed to download " +:+ filename +:+ ": " +:+ pretty code)
  | Crashed e _ => Some ("Error downloading " +:+ filename +:+ ": " +:+ e)
  end.

(** What [download_image] does to the files, by fate: the whole body at
    its path, what a failing write had flushed, or nothing. *)
Definition store (f : fate) (path : string)
    (files : gmap string (list Byte.byte)) : gmap string (list Byte.byte) :=
  match f with
  | Saved content => <[path:=content]> files
  | Crashed _ (Some partial) => <[path:=partial]> files
  | _ => files
  end.

(** The fate, the printed line, the effect on the files and the saved
    body at position [i] of the filtered sequence. *)
Definition fate_at (session : session) (items : list (gmap string jvalue))
    (i : nat) : option fate :=
  item_fate session i <$> items !! i.
Definition failure_line_at (session : session)
    (items : list (gmap string jvalue)) (i : nat) : option string :=
  fate_at session items i ≫= λ f, failure_line f (space_name i).
Definition store_at (session : session) (items : list (gmap string jvalue))
    (i : nat) (files : gmap string (list Byte.byte))
    : gmap string (list Byte.byte) :=
  from_option (λ f, store f (target_path i) files) files
    (fate_at session items i).
Definition saved_body (session : session) (items : list (gmap string jvalue))
    (i : nat) : option (list Byte.byte) :=
  fate_at session items i ≫= λ f,
    match f with Saved content => Some content | _ => None end.

(** The files after all downloads, applied in input order. *)
Definition disk_after (session : session) (items : list (gmap string jvalue))
    (files : gmap string (list Byte.byte)) : gmap string (list Byte.byte) :=
  foldr (store_at session items) files (seq 0 (length items)).

(** What [detect_stars_and_process] returns for a file with the given
    content (lines 43-45 and 48-64). *)
Definition summary_of_body (filename : string) (content : list Byte.byte)
    : string :=
  match imdecode content with
  | None => "Error loading " +:+ filename
  | Some img =>
      "Found " +:+ pretty (length (blob_detect (cvtColor_BGR2GRAY img)))
      +:+ " stars in " +:+ filename
  end.

(** What [cv2.imwrite] leaves at the output path of a file with the given
    content: nothing when the file does not load or the writer gives up. *)
Definition annotated_copy (filename : string) (content : list Byte.byte)
    : option (list Byte.byte) :=
  img ← imdecode content;
  imencode (output_path filename)
    (drawKeypoints img (blob_detect (cvtColor_BGR2GRAY img))).

(** The three ways the metadata step (lines 75-78) raises [e]: the
    request, the JSON decoding, or the comprehension over the body. *)
Inductive fetch_raises (session : session) (e : exn) : Prop :=
  | fetch_get_raises :
      get session (JStr BASE_URL)
        [("api_key", JStr NASA_API_KEY); ("count", JInt 10)] = inl e →
      fetch_raises session e
  | fetch_json_raises response :
      get session (JStr BASE_URL)
        [("api_key", JStr NASA_API_KEY); ("count", JInt 10)] = inr response →
      json response = inl e →
      fetch_raises session e
  | fetch_filter_raises response data :
      get session (JStr BASE_URL)
        [("api_key", JStr NASA_API_KEY); ("count", JInt 10)] = inr response →
      json response = inr data →
      valid_items_of data = inl e →
      fetch_raises session e.

End Outcomes.

(** * Properties *)

(** ** Schedules *)

Lemma pick_order_perm fuel pending sched :
  length pending = fuel → pick_order fuel pending sched ≡ₚ pending.
Proof.
  revert pending sched.
  induction fuel as [|fuel IH]; intros pending sched Hlen; simpl.
  - by apply nil_length_inv in Hlen as ->.
  - assert (hd 0 sched `mod` length pending < length pending) as Hk
      by (apply Nat.mod_upper_bound; lia).
    destruct (lookup_lt_is_Some_2 _ _ Hk) as [i Hi]. rewrite Hi.
    etrans; [|symmetry; apply (delete_Permutation pending _ i Hi)].
    constructor. apply IH.
    pose proof (length_delete pending _ (ex_intro _ i Hi)). lia.
Qed.

Lemma completion_order_perm sched count :
  completion_order sched count ≡ₚ seq 0 count.
Proof. apply pick_order_perm, length_seq. Qed.

(** ** The gathering rule *)

Section gather_rule.
Context {A : Type} (futs : list (future A)).
(** [P done w]: what holds of the world once the tasks in [done] have
    completed.  [Q i a]: what holds of the result [a] of task [i]. *)
Context (P : list nat → world → Prop) (Q : nat → A → Prop).
Hypothesis step : ∀ done i fut w,
  futs !! i = Some fut → i ∉ done → P done w →
  ∃ a w', settle fut w = (Ret (Ret a), w') ∧ Q i a ∧ P (i :: done) w'.

Lemma run_order_inv order done slots w :
  NoDup order →
  (∀ i, i ∈ order → i < length futs ∧ i ∉ done) →
  P done w → slots_ok futs Q done slots →
  ∃ slots' w', run_order futs order slots w = (Ret slots', w') ∧
    P (reverse order ++ done) w' ∧
    slots_ok futs Q (reverse order ++ done) slots'.
Proof.
  revert done slots w.
  induction order as [|i order IH]; intros done slots w Hnd Hin HP Hs.
  { exists slots, w. by rewrite reverse_nil. }
  apply NoDup_cons in Hnd as [Hi Hnd].
  destruct (Hin i) as [Hlt Hfresh]; [left|].
  destruct (lookup_lt_is_Some_2 _ _ Hlt) as [fut Hfut].
  destruct (step done i fut w Hfut Hfresh HP) as (a & w1 & Hrun & HQ & HP1).
  destruct (IH (i :: done) (<[i:=Some a]> slots) w1) as (slots' & w' & Hr & HP' & Hs').
  - done.
  - intros j Hj. destruct (Hin j) as [? ?]; [by right|].
    split; [done|]. rewrite not_elem_of_cons. split; [|done].
    intros ->. done.
  - done.
  - destruct Hs as [Hlen Hs]. split; [by rewrite length_insert|].
    intros j [->|Hj]%elem_of_cons.
    + exists a. split; [|done]. apply list_lookup_insert_eq. lia.
    + destruct (Hs j Hj) as (b & Hb & HQb). exists b. split; [|done].
      rewrite list_lookup_insert_ne; [done|]. intros ->. done.
  - exists slots', w'. rewrite reverse_cons, <-app_assoc. simpl.
    split; [|done].
    simpl. rewrite Hfut. unfold mbind, M_bind, bind at 1. by rewrite Hrun.
Qed.

(** The rule of [gather]: once the tasks are started, an invariant that
    every completion preserves holds when the gathering is over, of the
    completion order of the schedule (last task first); and the results
    come back in the order of the tasks. *)
Lemma gather_inv_order sched w w1 :
  start_all futs w = (Ret (), w1) →
  P [] w1 →
  ∃ results w',
    gather futs sched w = (Ret results, w') ∧
    P (reverse (completion_order sched (length futs))) w' ∧
    length results = length futs ∧
    ∀ i a, results !! i = Some a → Q i a.
Proof.
  intros Hstart HP.
  pose proof (completion_order_perm sched (length futs)) as Hperm.
  destruct (run_order_inv (completion_order sched (length futs)) []
              (replicate (length futs) None) w1)
    as (slots & w' & Hr & HP' & Hlen & Hs).
  - rewrite Hperm. apply NoDup_seq.
  - intros i Hi. rewrite Hperm in Hi. apply elem_of_seq in Hi.
    split; [lia|]. apply not_elem_of_nil.
  - done.
  - split; [apply length_replicate|]. by intros i ?%elem_of_nil.
  - rewrite app_nil_r in HP', Hs.
    assert (∀ i, i < length futs →
              ∃ a, slots !! i = Some (Some a) ∧ Q i a) as Hall.
    { intros i Hi. apply Hs. rewrite reverse_Permutation, Hperm.
      apply elem_of_seq. lia. }
    destruct (mapM_is_Some_2 id slots) as [results Hres].
    { apply Forall_lookup. intros i x Hx.
      destruct (Hall i) as (a & Ha & _).
      { rewrite <-Hlen. by eapply lookup_lt_Some. }
      rewrite Hx in Ha. injection Ha as ->. by eexists. }
    exists results, w'.
    pose proof (length_mapM _ _ _ Hres) as Hlen'.
    apply mapM_Some_1 in Hres.
    split_and!; [|done|lia|].
    + unfold gather, mbind, M_bind, bind. rewrite Hstart, Hr.
      by rewrite (mapM_Some_2 id slots results Hres).
    + intros i a Ha.
      destruct (Forall2_lookup_r _ _ _ _ _ Hres Ha) as (x & Hx & Hxa).
      simpl in Hxa. subst x.
      destruct (Hall i) as (b & Hb & HQ).
      { rewrite <-Hlen. by eapply lookup_lt_Some. }
      rewrite Hx in Hb. by injection Hb as ->.
Qed.

Lemma gather_inv sched w w1 :
  start_all futs w = (Ret (), w1) →
  P [] w1 →
  ∃ results w' done,
    gather futs sched w = (Ret results, w') ∧
    done ≡ₚ seq 0 (length futs) ∧ P done w' ∧
    length results = length futs ∧
    ∀ i a, results !! i = Some a → Q i a.
Proof.
  intros Hstart HP.
  destruct (gather_inv_order sched w w1 Hstart HP)
    as (results & w' & Hg & HP' & Hlen & HQ).
  exists results, w', (reverse (completion_order sched (length futs))).
  split_and!; [done| |done..].
  by rewrite reverse_Permutation, completion_order_perm.
Qed.

End gather_rule.

(** ** Single steps of the world *)

Lemma counter_set_fs pbar f w : counter pbar (set_fs f w) = counter pbar w.
Proof. done. Qed.
Lemma counter_set_stdout pbar f w :
  counter pbar (set_stdout f w) = counter pbar w.
Proof. done. Qed.
Lemma counter_set_requests pbar f w :
  counter pbar (set_requests f w) = counter pbar w.
Proof. done. Qed.

Lemma counter_update pbar w :
  pbar < length (bars w) →
  counter pbar (set_bars (alter (tqdm_update_bar 1) pbar) w)
  = counter pbar w + 1.
Proof.
  intros Hp. unfold counter. simpl. rewrite list_lookup_alter_eq.
  destruct (lookup_lt_is_Some_2 _ _ Hp) as [b ->]. done.
Qed.

Lemma counter_close pbar w :
  counter pbar (set_bars (alter tqdm_close_bar pbar) w) = counter pbar w.
Proof.
  unfold counter. simpl. rewrite list_lookup_alter_eq.
  by destruct (bars w !! pbar).
Qed.

Lemma counter_new total desc unit_ w :
  counter (next_bar w)
    (set_bars (λ bs, bs ++ [Tqdm total desc unit_ 0 false]) w) = 0.
Proof.
  unfold counter, next_bar. simpl.
  by rewrite lookup_app_r, Nat.sub_diag by lia.
Qed.

Section download_image_facts.
Context {ext : Externals}.

(** What [download_image] returns and what it leaves behind, by fate. *)
Lemma download_image_run session url filename pbar w :
  download_image session url filename pbar w =
  match download_fate session url filename with
  | Saved content =>
      (Ret (Some filename),
       set_bars (alter (tqdm_update_bar 1) pbar)
         (set_fs <[path_join SAVE_DIR filename:=content]>
            (set_requests (λ sent, sent ++ [url]) w)))
  | Refused code =>
      (Ret None,
       set_stdout (λ out, out ++ ["Failed to download " +:+ filename +:+ ": "
                                   +:+ pretty code])
         (set_requests (λ sent, sent ++ [url]) w))
  | Crashed e partial =>
      (Ret None,
       set_bars (alter (tqdm_update_bar 1) pbar)
         (set_stdout (λ out, out ++ ["Error downloading " +:+ filename
                                     +:+ ": " +:+ e])
            (set_fs (λ files, from_option
                       (λ c, <[path_join SAVE_DIR filename:=c]> files)
                       files partial)
               (set_requests (λ sent, sent ++ [url]) w))))
  end.
Proof.
  unfold download_image, download_fate, try_except, save_file, session_get.
  unfold mbind, M_bind, bind, lift.
  destruct (get session url []) as [e|response]; simpl; [by destruct w|].
  destruct (status response =? 200)%Z; simpl; [|done].
  destruct (read response) as [e|content]; simpl; [by destruct w|].
  destruct (disk _ content); by destruct w.
Qed.

Lemma download_image_result session url filename pbar w :
  (download_image session url filename pbar w).1
  = Ret (fate_result (download_fate session url filename) filename).
Proof.
  rewrite download_image_run.
  by destruct (download_fate session url filename).
Qed.

End download_image_facts.

(** ** Gathering coroutines and pool jobs *)

Lemma start_all_nothing {A} (futs : list (future A)) w :
  Forall (λ fut, ∀ w0, started fut w0 = (Ret (), w0)) futs →
  start_all futs w = (Ret (), w).
Proof.
  induction 1 as [|fut futs Hfut _ IH]; [done|].
  simpl. unfold mbind, M_bind, bind. by rewrite Hfut.
Qed.

Lemma later_steps_requests {A} (m : M A) w :
  requests (later_steps m w).2 = requests w.
Proof. unfold later_steps. by destruct (m w). Qed.

Lemma settle_coroutine {A} (m : M A) w r w' :
  m w = (r, w') →
  settle (coroutine m) w = (Ret r, set_requests (λ _, requests w) w').
Proof.
  intros Hm. unfold settle, coroutine, later_steps, attempt.
  unfold mbind, M_bind, bind. simpl. by rewrite Hm.
Qed.

Lemma settle_callback {A} (m : M A) (cb : M ()) w r w' w'' :
  m w = (r, w') → cb w' = (Ret (), w'') →
  settle (add_done_callback (run_in_executor m) cb) w = (Ret r, w'').
Proof.
  intros Hm Hcb. unfold settle, add_done_callback, run_in_executor, attempt.
  unfold mbind, M_bind, bind. simpl. rewrite Hm.
  unfold mbind, M_bind, bind. by rewrite Hcb.
Qed.

Section download_stage_facts.
Context {ext : Externals}.

(** The first step of a download sends its request, and that is all a
    download does to the request log: [download_image] is its first step
    followed by its later steps. *)
Lemma first_step_download session url filename pbar w :
  first_step (download_image session url filename pbar) w
  = (Ret (), set_requests (λ sent, sent ++ [url]) w).
Proof.
  unfold first_step. rewrite download_image_run.
  by destruct (download_fate session url filename).
Qed.

Lemma download_image_steps session url filename pbar w :
  (first_step (download_image session url filename pbar);;
   later_steps (download_image session url filename pbar)) w
  = download_image session url filename pbar w.
Proof.
  unfold mbind, M_bind, bind. rewrite first_step_download.
  unfold later_steps. rewrite !download_image_run.
  destruct (download_fate session url filename); by destruct w.
Qed.

(** Starting the downloads sends their requests, in item order. *)
Lemma start_all_downloads session (items : list (gmap string jvalue))
    pbar w :
  start_all (coroutine <$> download_tasks session items pbar) w
  = (Ret (), set_requests (λ sent, sent ++ (item_url <$> items)) w).
Proof.
  unfold download_tasks. generalize space_name as name.
  revert w. induction items as [|item items IH]; intros w name.
  { destruct w. simpl. unfold set_requests. simpl. by rewrite app_nil_r. }
  simpl. unfold mbind, M_bind, bind. rewrite first_step_download.
  rewrite (IH _ (name ∘ S)).
  destruct w. unfold set_requests. simpl. by rewrite <-app_assoc.
Qed.

(** The rule of the Download Stage: an invariant [P] of the world, indexed
    by the downloads completed so far, that holds once the bar exists and
    the requests are out, and that the later steps of every download
    preserve, holds when the gathering is over, of the completion order of
    the schedule (last download first); and the stage returns, in input
    order, what each download returned. *)
Lemma download_stage_rule (P : list nat → world → Prop) session
    (items : list (gmap string jvalue)) sched w :
  P [] (set_requests (λ sent, sent ++ (item_url <$> items))
          (set_bars (λ bs, bs ++ [Tqdm (length items) "Downloading" "img"
                                    0 false]) w)) →
  (∀ fin i item w',
     items !! i = Some item → i ∉ fin → P fin w' →
     P (i :: fin)
       (later_steps (download_image session (item_url item) (space_name i)
                       (next_bar w)) w').2) →
  ∃ w',
    download_stage session items sched w
    = (Ret (imap (λ i item, fate_result (item_fate session i item)
                              (space_name i)) items),
       set_bars (alter tqdm_close_bar (next_bar w)) w') ∧
    P (reverse (completion_order sched (length items))) w'.
Proof.
  intros HP0 Hstep.
  set (w1 := set_bars _ w) in *.
  set (futs := coroutine <$> download_tasks session items (next_bar w)).
  assert (length futs = length items) as Hlen.
  { unfold futs, download_tasks. by rewrite length_fmap, length_imap. }
  destruct (gather_inv_order futs P
              (λ i a, ∃ item, items !! i = Some item ∧
                        a = fate_result (item_fate session i item)
                              (space_name i)))
    with (sched := sched) (w := w1)
         (w1 := set_requests (λ sent, sent ++ (item_url <$> items)) w1)
    as (results & w' & Hg & HP & Hrl & Hres).
  - intros fin i fut w0 Hfut Hi HPd.
    unfold futs, download_tasks in Hfut.
    rewrite list_lookup_fmap, list_lookup_imap in Hfut.
    destruct (items !! i) as [item|] eqn:Hitem; [|done].
    simpl in Hfut. injection Hfut as <-.
    pose proof (Hstep fin i item w0 Hitem Hi HPd) as Hnext.
    pose proof (download_image_result session (item_url item) (space_name i)
                  (next_bar w) w0) as Hr.
    unfold later_steps in Hnext.
    destruct (download_image session (item_url item) (space_name i)
                (next_bar w) w0) as [r w2] eqn:Hrun.
    simpl in Hr, Hnext. subst r.
    eexists _, _. split; [by apply settle_coroutine|].
    split; [by exists item|done].
  - apply start_all_downloads.
  - done.
  - exists w'. rewrite Hlen in HP. split; [|done].
    unfold download_stage, tqdm_new, pbar_close, mbind, M_bind, bind.
    fold w1. fold (next_bar w). fold futs. rewrite Hg. simpl.
    unfold mret, M_ret, ret. do 2 f_equal. apply list_eq. intros i.
    rewrite list_lookup_imap.
    destruct (results !! i) as [a|] eqn:Ha.
    + destruct (Hres i a Ha) as (item & -> & ->). done.
    + apply lookup_ge_None in Ha. rewrite Hrl, Hlen in Ha.
      by rewrite (lookup_ge_None_2 items i).
Qed.

(** The same rule for an invariant that does not look at the request
    log: it is enough that every download, taken as a whole, preserves
    it. *)
Lemma download_stage_inv_order (P : list nat → world → Prop) session
    (items : list (gmap string jvalue)) sched w :
  (∀ fin g w', P fin w' → P fin (set_requests g w')) →
  P [] (set_bars (λ bs, bs ++ [Tqdm (length items) "Downloading" "img" 0 false]) w) →
  (∀ fin i item w',
     items !! i = Some item → i ∉ fin → P fin w' →
     P (i :: fin)
       (download_image session (item_url item) (space_name i)
          (next_bar w) w').2) →
  ∃ w',
    download_stage session items sched w
    = (Ret (imap (λ i item, fate_result (item_fate session i item)
                              (space_name i)) items),
       set_bars (alter tqdm_close_bar (next_bar w)) w') ∧
    P (reverse (completion_order sched (length items))) w'.
Proof.
  intros Hquiet HP0 Hstep. apply download_stage_rule.
  - by apply Hquiet.
  - intros fin i item w0 Hitem Hi HP.
    pose proof (Hstep fin i item w0 Hitem Hi HP) as Hnext.
    unfold later_steps.
    destruct (download_image session (item_url item) (space_name i)
                (next_bar w) w0) as [r w2].
    simpl in *. by apply Hquiet.
Qed.

(** And without the order: the invariant holds of some enumeration of
    the downloads. *)
Lemma download_stage_inv (P : list nat → world → Prop) session
    (items : list (gmap string jvalue)) sched w :
  (∀ done g w', P done w' → P done (set_requests g w')) →
  P [] (set_bars (λ bs, bs ++ [Tqdm (length items) "Downloading" "img" 0 false]) w) →
  (∀ done i item w',
     items !! i = Some item → i ∉ done → P done w' →
     P (i :: done)
       (download_image session (item_url item) (space_name i)
          (next_bar w) w').2) →
  ∃ w' done,
    download_stage session items sched w
    = (Ret (imap (λ i item, fate_result (item_fate session i item)
                              (space_name i)) items),
       set_bars (alter tqdm_close_bar (next_bar w)) w') ∧
    done ≡ₚ seq 0 (length items) ∧ P done w'.
Proof.
  intros Hquiet HP0 Hstep.
  destruct (download_stage_inv_order P session items sched w Hquiet HP0
              Hstep) as (w' & Hrun & HP).
  exists w', (reverse (completion_order sched (length items))).
  split_and!; [done| |done].
  by rewrite reverse_Permutation, completion_order_perm.
Qed.

End download_stage_facts.

(** ** File names and paths *)

Lemma string_app_cons (c : ascii) (s t : string) :
  String c s +:+ t = String c (s +:+ t).
Proof. done. Qed.

Lemma string_app_assoc (s1 s2 s3 : string) :
  (s1 +:+ s2) +:+ s3 = s1 +:+ (s2 +:+ s3).
Proof.
  induction s1 as [|c s1 IH]; [done|].
  rewrite !string_app_cons. by f_equal.
Qed.

Lemma string_length_app (s1 s2 : string) :
  String.length (s1 +:+ s2) = String.length s1 + String.length s2.
Proof.
  induction s1 as [|c s1 IH]; [done|].
  rewrite string_app_cons. simpl. by f_equal.
Qed.

Lemma string_app_inj_r (s1 s2 t : string) : s1 +:+ t = s2 +:+ t → s1 = s2.
Proof.
  revert s2. induction s1 as [|c s1 IH]; intros [|d s2] Heq.
  - done.
  - apply (f_equal String.length) in Heq.
    rewrite !string_length_app in Heq. simpl in Heq. lia.
  - apply (f_equal String.length) in Heq.
    rewrite !string_length_app in Heq. simpl in Heq. lia.
  - rewrite !string_app_cons in Heq. injection Heq as -> Heq.
    f_equal. by apply IH.
Qed.

Lemma after_slash_app_None (s t : string) :
  after_slash (s +:+ t) = None ↔ after_slash s = None ∧ after_slash t = None.
Proof.
  induction s as [|c s IH].
  { change ("" +:+ t) with t. simpl. tauto. }
  rewrite string_app_cons. simpl.
  destruct (after_slash (s +:+ t)), (after_slash s), (Ascii.eqb c "/");
    intuition congruence.
Qed.

Lemma after_slash_no_leading (s : string) :
  after_slash s = None → starts_with_slash s = false.
Proof.
  destruct s as [|c s]; simpl; [done|].
  destruct (after_slash s), (Ascii.eqb c "/"); congruence.
Qed.

Lemma after_slash_prefix (p name : string) :
  ends_with_slash p = true → after_slash name = None →
  after_slash (p +:+ name) = Some name.
Proof.
  intros Hp Hname. induction p as [|c p IH]; [done|].
  rewrite string_app_cons. simpl. destruct p as [|d p].
  - simpl in Hp. change ("" +:+ name) with name. by rewrite Hname, Hp.
  - by rewrite IH.
Qed.

Lemma ends_with_slash_app (s : string) : ends_with_slash (s +:+ "/") = true.
Proof.
  induction s as [|c s IH]; [done|].
  rewrite string_app_cons. simpl.
  destruct (s +:+ "/") eqn:Hs; [|done].
  by destruct s.
Qed.

Lemma dir_prefix_shape (dir : string) :
  dir_prefix dir = "" ∨ ends_with_slash (dir_prefix dir) = true.
Proof.
  unfold dir_prefix.
  destruct (String.eqb dir "") eqn:Hd; simpl.
  - left. by apply String.eqb_eq.
  - right. destruct (ends_with_slash dir) eqn:He; [done|].
    apply ends_with_slash_app.
Qed.

Lemma path_join_relative (dir name : string) :
  starts_with_slash name = false →
  path_join dir name = dir_prefix dir +:+ name.
Proof.
  intros Hn. unfold path_join, dir_prefix. rewrite Hn.
  destruct (String.eqb dir "" || ends_with_slash dir); [done|].
  by rewrite string_app_assoc.
Qed.

(** Joining a slash-free name to a directory keeps the name recoverable:
    two such paths are equal only when the names are. *)
Lemma path_join_name_inj (dir1 dir2 name1 name2 : string) :
  after_slash name1 = None → after_slash name2 = None →
  path_join dir1 name1 = path_join dir2 name2 → name1 = name2.
Proof.
  intros H1 H2.
  rewrite !path_join_relative by by apply after_slash_no_leading.
  destruct (dir_prefix_shape dir1) as [->|Hp1],
    (dir_prefix_shape dir2) as [->|Hp2];
    change ("" +:+ name1) with name1; change ("" +:+ name2) with name2;
    intros Heq.
  - done.
  - apply (f_equal after_slash) in Heq.
    rewrite after_slash_prefix in Heq by done. congruence.
  - apply (f_equal after_slash) in Heq.
    rewrite after_slash_prefix in Heq by done. congruence.
  - apply (f_equal after_slash) in Heq.
    rewrite !after_slash_prefix in Heq by done. congruence.
Qed.

Lemma after_slash_pretty_N_go (x : N) (s : string) :
  after_slash s = None → after_slash (pretty_N_go x s) = None.
Proof.
  revert s. induction (N.lt_wf_0 x) as [x _ IH]; intros s Hs.
  assert (x = 0 ∨ 0 < x)%N as [->|Hx] by lia.
  - by rewrite pretty_N_go_0.
  - rewrite pretty_N_go_step by done. apply IH.
    { by apply N.div_lt. }
    simpl. rewrite Hs. unfold pretty_N_char. by repeat case_match.
Qed.

Lemma after_slash_pretty_nat (i : nat) : after_slash (pretty i) = None.
Proof.
  unfold pretty, pretty_nat, pretty, pretty_N.
  case_decide; [done|]. by apply after_slash_pretty_N_go.
Qed.

Lemma after_slash_space_name (i : nat) : after_slash (space_name i) = None.
Proof.
  unfold space_name. rewrite !after_slash_app_None.
  split_and!; [done|apply after_slash_pretty_nat|done].
Qed.

Lemma space_name_inj (i j : nat) : space_name i = space_name j → i = j.
Proof.
  unfold space_name. intros Heq.
  apply (inj (String.app "space_")) in Heq.
  apply string_app_inj_r in Heq. by apply (inj pretty) in Heq.
Qed.

Lemma space_name_nonempty (i : nat) : String.eqb (space_name i) "" = false.
Proof. unfold space_name. by rewrite string_app_cons. Qed.

Lemma space_path_inj (dir : string) (i j : nat) :
  path_join dir (space_name i) = path_join dir (space_name j) → i = j.
Proof.
  intros Heq. apply space_name_inj.
  by apply (path_join_name_inj dir dir); [apply after_slash_space_name..|].
Qed.

(** No annotated output file lands on a downloaded file. *)
Lemma detected_path_ne (dir1 dir2 : string) (i j : nat) :
  path_join dir1 ("detected_" +:+ space_name i)
  ≠ path_join dir2 (space_name j).
Proof.
  intros Heq. apply path_join_name_inj in Heq.
  - unfold space_name in Heq. by rewrite !string_app_cons in Heq.
  - rewrite after_slash_app_None. split; [done|apply after_slash_space_name].
  - apply after_slash_space_name.
Qed.

(** ** One analysis job *)

Section detect_facts.
Context {ext : Externals}.

(** What [detect_stars_and_process] returns and what it leaves behind. *)
Lemma detect_run filename w :
  detect_stars_and_process filename w =
  match fs w !! path_join SAVE_DIR filename ≫= imdecode with
  | None => (Ret ("Error loading " +:+ filename), w)
  | Some img =>
      let keypoints := blob_detect (cvtColor_BGR2GRAY img) in
      let output_path := path_join PROCESSED_DIR ("detected_" +:+ filename) in
      (Ret ("Found " +:+ pretty (length keypoints) +:+ " stars in "
            +:+ filename),
       from_option (λ content, set_fs <[output_path:=content]> w) w
         (imencode output_path (drawKeypoints img keypoints)))
  end.
Proof.
  unfold detect_stars_and_process, imread, imwrite, mbind, M_bind, bind.
  simpl. unfold mbind.
  destruct (option_bind _ _ imdecode _) as [img|]; [|done].
  by destruct (imencode _ _).
Qed.

(** A job never raises. *)
Lemma detect_total filename w :
  ∃ s w', detect_stars_and_process filename w = (Ret s, w').
Proof.
  rewrite detect_run. destruct (_ ≫= imdecode); eauto.
Qed.

(** A job touches neither the bars nor the console. *)
Lemma detect_bars filename w :
  bars (detect_stars_and_process filename w).2 = bars w.
Proof.
  rewrite detect_run. destruct (_ ≫= imdecode); [|done].
  simpl. by destruct (imencode _ _).
Qed.

(** The only file a job may write is its own annotated copy. *)
Lemma detect_fs filename w path :
  path ≠ path_join PROCESSED_DIR ("detected_" +:+ filename) →
  fs (detect_stars_and_process filename w).2 !! path = fs w !! path.
Proof.
  intros Hne. rewrite detect_run. destruct (_ ≫= imdecode); [|done].
  simpl. destruct (imencode _ _); [|done].
  simpl. by rewrite lookup_insert_ne.
Qed.

(** Its result depends on the world only through the file it reads. *)
Lemma detect_result_ext filename w1 w2 :
  fs w1 !! path_join SAVE_DIR filename = fs w2 !! path_join SAVE_DIR filename →
  (detect_stars_and_process filename w1).1
  = (detect_stars_and_process filename w2).1.
Proof.
  intros Heq. rewrite !detect_run, Heq.
  by destruct (_ ≫= imdecode).
Qed.

(** The rule of the Analysis Stage, like that of the Download Stage: [P]
    is preserved by a job followed by its callback, and [Q] holds of the
    summaries the jobs return. *)
Lemma analysis_stage_inv (P : list nat → world → Prop)
    (Q : nat → string → Prop) (files : list string) sched w :
  P [] (set_bars (λ bs, bs ++ [Tqdm (length files) "Analyzing" "img" 0 false]) w) →
  (∀ done i fname w0 s w1,
     files !! i = Some fname → i ∉ done → P done w0 →
     detect_stars_and_process fname w0 = (Ret s, w1) →
     Q i s ∧
     P (i :: done) (set_bars (alter (tqdm_update_bar 1) (next_bar w)) w1)) →
  ∃ summaries w' done,
    analysis_stage files sched w
    = (Ret summaries, set_bars (alter tqdm_close_bar (next_bar w)) w') ∧
    done ≡ₚ seq 0 (length files) ∧ P done w' ∧
    length summaries = length files ∧
    ∀ i s, summaries !! i = Some s → Q i s.
Proof.
  intros HP0 Hstep.
  set (w1 := set_bars _ w) in *.
  set (futs := (λ fname, add_done_callback
                  (run_in_executor (detect_stars_and_process fname))
                  (pbar_update (next_bar w) 1)) <$> files).
  assert (length futs = length files) as Hlen
    by (unfold futs; by rewrite length_fmap).
  destruct (gather_inv futs P Q) with (sched := sched) (w := w1) (w1 := w1)
    as (summaries & w' & done & Hg & Hdone & HP & Hrl & Hres).
  - intros done i fut w0 Hfut Hi HPd.
    unfold futs in Hfut. rewrite list_lookup_fmap in Hfut.
    destruct (files !! i) as [fname|] eqn:Hfile; [|done].
    simpl in Hfut. injection Hfut as <-.
    destruct (detect_total fname w0) as (s & w2 & Hrun).
    destruct (Hstep done i fname w0 s w2 Hfile Hi HPd Hrun) as [HQ HP'].
    eexists s, _. split; [|done].
    by eapply settle_callback.
  - apply start_all_nothing, Forall_fmap, Forall_true. by intros fname w0.
  - done.
  - exists summaries, w', done. rewrite Hlen in Hdone, Hrl.
    split; [|done].
    unfold analysis_stage, tqdm_new, pbar_close, mbind, M_bind, bind.
    fold w1. fold (next_bar w). fold futs. by rewrite Hg.
Qed.

End detect_facts.



(** ** The Download Stage *)

Lemma filter_fmap {A B} (P : B → Prop) `{!∀ y, Decision (P y)} (f : A → B)
    (l : list A) :
  filter P (f <$> l) = f <$> filter (λ x, P (f x)) l.
Proof.
  induction l as [|x l IH]; [done|].
  rewrite fmap_cons, !filter_cons. case_decide; [|done].
  by rewrite fmap_cons, IH.
Qed.

(** Filtering out the failure markers keeps, in order, the names at the
    positions that were marked as kept. *)
Lemma keep_saved_imap {A} (ok : nat → A → bool) (name : nat → string)
    (l : list A) :
  (∀ i, String.eqb (name i) "" = false) →
  keep_saved (imap (λ i x, if ok i x then Some (name i) else None) l)
  = name <$> filter (λ i, from_option (ok i) false (l !! i))
               (seq 0 (length l)).
Proof.
  intros Hname. revert ok name Hname.
  induction l as [|x l IH]; intros ok name Hname; [done|].
  rewrite imap_cons. simpl length. rewrite <-cons_seq, <-fmap_S_seq.
  rewrite filter_cons, filter_fmap. simpl.
  unfold keep_saved in *. simpl.
  specialize (IH (λ i, ok (S i)) (λ i, name (S i)) (λ i, Hname (S i))).
  simpl in IH. unfold compose. rewrite IH.
  destruct (ok 0 x); simpl.
  - rewrite Hname. f_equal. apply (list_fmap_compose S name).
  - apply (list_fmap_compose S name).
Qed.

Section download_stage_claims.
Context {ext : Externals}.

(** What the progress bar of the Download Stage shows at the end: every
    item is counted except those whose request was answered with a status
    other than 200. *)
Lemma download_stage_counter session (items : list (gmap string jvalue))
    sched w :
  counter (next_bar w) (download_stage session items sched w).2
  + length (filter (λ i, refused_at session items i) (seq 0 (length items)))
  = length items.
Proof.
  destruct (download_stage_inv
    (λ done w', next_bar w < length (bars w') ∧
       counter (next_bar w) w'
       + length (filter (λ i, refused_at session items i) done)
       = length done)
    session items sched w) as (w' & done & Hrun & Hdone & Hp & Hcount).
  - done.
  - split; [unfold next_bar; simpl; rewrite length_app; simpl; lia|].
    rewrite counter_new. done.
  - intros done i item w0 Hitem Hi [Hp Hcount].
    assert (refused_at session items i
            = is_refused (item_fate session i item)) as Hr
      by (unfold refused_at; by rewrite Hitem).
    rewrite download_image_run. unfold item_fate in Hr.
    destruct (download_fate session (item_url item) (space_name i));
      simpl in *.
    + rewrite filter_cons_False by (rewrite Hr; by intros []).
      rewrite length_alter. split; [done|].
      rewrite counter_update by done.
      rewrite counter_set_fs, counter_set_requests. lia.
    + rewrite filter_cons_True by (by rewrite Hr).
      split; [done|].
      rewrite counter_set_stdout, counter_set_requests. simpl. lia.
    + rewrite filter_cons_False by (rewrite Hr; by intros []).
      rewrite length_alter. split; [done|].
      rewrite counter_update by done.
      rewrite counter_set_stdout, counter_set_fs, counter_set_requests. lia.
  - rewrite Hrun. simpl. rewrite counter_close.
    rewrite <-Hdone, Hcount. by rewrite Hdone, length_seq.
Qed.

(** The stage returns, in input order, what each download returned. *)
Lemma download_stage_run session (items : list (gmap string jvalue)) sched w :
  ∃ w',
    download_stage session items sched w
    = (Ret (imap (λ i item, fate_result (item_fate session i item)
                              (space_name i)) items), w').
Proof.
  destruct (download_stage_inv (λ _ _, True) session items sched w)
    as (w' & order & Hrun & _ & _); [done..|].
  by eexists.
Qed.

Lemma fate_result_saved (f : fate) (filename : string) :
  fate_result f filename = if is_saved f then Some filename else None.
Proof. by destruct f. Qed.

Lemma keep_saved_results session (items : list (gmap string jvalue)) :
  keep_saved (imap (λ i item, fate_result (item_fate session i item)
                                (space_name i)) items)
  = space_name <$> filter (λ i, saved_at session items i)
                     (seq 0 (length items)).
Proof.
  rewrite (imap_ext _ (λ i item, if is_saved (item_fate session i item)
                               then Some (space_name i) else None))
    by (intros; apply fate_result_saved).
  apply (keep_saved_imap (λ i item, is_saved (item_fate session i item))),
    space_name_nonempty.
Qed.

(** C2: whatever the completion order, the Download Stage returns one
    entry per filtered item, in input order; entry [i] is the name
    [space_<i>.jpg] when item [i] was saved and [None] otherwise; and the
    list the caller keeps is exactly the saved names, in input order. *)
Theorem download_stage_results session (items : list (gmap string jvalue))
    sched w :
  ∃ results w',
    download_stage session items sched w = (Ret results, w') ∧
    length results = length items ∧
    (∀ i item, items !! i = Some item →
       results !! i
       = Some (if is_saved (item_fate session i item)
               then Some (space_name i) else None)) ∧
    keep_saved results
    = space_name <$> filter (λ i, saved_at session items i)
                       (seq 0 (length items)).
Proof.
  destruct (download_stage_run session items sched w) as [w' Hrun].
  eexists _, _. split; [exact Hrun|].
  split; [by rewrite length_imap|]. split.
  - intros i item Hitem.
    by rewrite list_lookup_imap, Hitem, <-fate_result_saved.
  - apply keep_saved_results.
Qed.

(** A name at a position that was not saved is not among the kept names. *)
Lemma not_saved_not_kept session (items : list (gmap string jvalue)) i :
  saved_at session items i = false →
  space_name i ∉ keep_saved
    (imap (λ i item, fate_result (item_fate session i item)
                       (space_name i)) items).
Proof.
  intros Hns. rewrite keep_saved_results.
  intros (j & Heq & Hj)%list_elem_of_fmap.
  apply space_name_inj in Heq as <-.
  apply list_elem_of_filter in Hj as [Hsaved _].
  by rewrite Hns in Hsaved.
Qed.

(** The console only grows during a download. *)
Lemma download_image_stdout session url filename pbar w line :
  line ∈ stdout w →
  line ∈ stdout (download_image session url filename pbar w).2.
Proof.
  intros Hin. rewrite download_image_run.
  destruct (download_fate session url filename); simpl;
    [done|apply elem_of_app; by left..].
Qed.

(** A download writes to no path but its own. *)
Lemma download_image_fs session url filename pbar w path :
  path ≠ path_join SAVE_DIR filename →
  fs (download_image session url filename pbar w).2 !! path = fs w !! path.
Proof.
  intros Hne. rewrite download_image_run.
  destruct (download_fate session url filename) as [c|code|e [c|]]; simpl;
    by rewrite ?lookup_insert_ne.
Qed.

Lemma fate_refused session url filename response :
  get session url [] = inr response → status response ≠ 200%Z →
  download_fate session url filename = Refused (status response).
Proof.
  intros Hget Hstatus. unfold download_fate. rewrite Hget.
  by apply Z.eqb_neq in Hstatus as ->.
Qed.

(** C4: a download answered with a status other than 200 prints a
    diagnostic, leaves the disk as it was, and returns [None]; in the
    stage, its slot holds [None], its name is not among the names handed
    to the Analysis Stage, its file is untouched, and every item,
    siblings included, still gets its own result. *)
Theorem download_non200_isolated session (items : list (gmap string jvalue))
    sched w i item response :
  items !! i = Some item →
  get session (item_url item) [] = inr response →
  status response ≠ 200%Z →
  let diagnostic := "Failed to download " +:+ space_name i +:+ ": "
                    +:+ pretty (status response) in
  let path := path_join SAVE_DIR (space_name i) in
  (∀ pbar w0,
     download_image session (item_url item) (space_name i) pbar w0
     = (Ret None,
        set_stdout (λ out, out ++ [diagnostic])
          (set_requests (λ sent, sent ++ [item_url item]) w0))) ∧
  ∃ results w',
    download_stage session items sched w = (Ret results, w') ∧
    diagnostic ∈ stdout w' ∧
    fs w' !! path = fs w !! path ∧
    results !! i = Some None ∧
    (space_name i ∉ keep_saved results) ∧
    length results = length items ∧
    ∀ j item', items !! j = Some item' →
      results !! j
      = Some (fate_result (item_fate session j item') (space_name j)).
Proof.
  intros Hitem Hget Hstatus diagnostic path.
  pose proof (fate_refused session _ (space_name i) _ Hget Hstatus) as Hfate.
  split.
  { intros pbar w0. by rewrite download_image_run, Hfate. }
  destruct (download_stage_inv
    (λ done w', (i ∈ done → diagnostic ∈ stdout w') ∧
                fs w' !! path = fs w !! path)
    session items sched w) as (w' & order & Hrun & Horder & Hdiag & Hfs).
  - done.
  - split; [by intros ?%elem_of_nil|done].
  - intros done j item' w0 Hitem' Hj [Hd Hf].
    destruct (decide (j = i)) as [->|Hne].
    + assert (item' = item) as -> by congruence.
      rewrite download_image_run, Hfate. simpl.
      split; [|done]. intros _. apply elem_of_app. right. by left.
    + split.
      * intros [?|Hin]%elem_of_cons; [congruence|].
        by apply download_image_stdout, Hd.
      * rewrite download_image_fs; [done|].
        intros Heq%space_path_inj. congruence.
  - eexists _, _. split; [exact Hrun|]. simpl.
    assert (i < length items) as Hlt by (by eapply lookup_lt_Some).
    split_and!.
    + apply Hdiag. rewrite Horder. apply elem_of_seq. lia.
    + done.
    + rewrite list_lookup_imap, Hitem. simpl.
      unfold item_fate. by rewrite Hfate.
    + apply not_saved_not_kept. unfold saved_at, item_fate.
      by rewrite Hitem; simpl; rewrite Hfate.
    + by rewrite length_imap.
    + intros j item' Hitem'. by rewrite list_lookup_imap, Hitem'.
Qed.

(** An item is saved exactly when its request is answered with status
    200, its body is read and the disk takes the whole body. *)
Lemma fate_saved session url filename :
  is_saved (download_fate session url filename) ↔
  ∃ response content,
    get session url [] = inr response ∧ status response = 200%Z ∧
    read response = inr content ∧
    disk (path_join SAVE_DIR filename) content = Written.
Proof.
  unfold download_fate. split.
  - destruct (get session url []) as [e|r] eqn:Hget; [by intros []|].
    destruct (status r =? 200)%Z eqn:Hs; [|by intros []].
    apply Z.eqb_eq in Hs.
    destruct (read r) as [e|c] eqn:Hread; [by intros []|].
    destruct (disk _ c) eqn:Hdisk; [|by intros []..].
    intros _. by exists r, c.
  - intros (r & c & -> & -> & -> & ->). done.
Qed.

(** Every saved body is on disk, in full and under its own name, when the
    stage is over: the file names are distinct, so no download overwrites
    the file of another. *)
Lemma download_stage_files session (items : list (gmap string jvalue))
    sched w i item content :
  items !! i = Some item →
  item_fate session i item = Saved content →
  fs (download_stage session items sched w).2
    !! path_join SAVE_DIR (space_name i) = Some content.
Proof.
  intros Hitem Hfate.
  destruct (download_stage_inv
    (λ done w', i ∈ done →
       fs w' !! path_join SAVE_DIR (space_name i) = Some content)
    session items sched w) as (w' & order & Hrun & Horder & Hfs).
  - done.
  - by intros ?%elem_of_nil.
  - intros done j item' w0 Hitem' Hj Hd.
    destruct (decide (j = i)) as [->|Hne].
    + assert (item' = item) as -> by congruence.
      unfold item_fate in Hfate.
      rewrite download_image_run, Hfate. simpl.
      intros _. apply lookup_insert_eq.
    + intros [?|Hin]%elem_of_cons; [congruence|].
      rewrite download_image_fs; [by apply Hd|].
      intros Heq%space_path_inj. congruence.
  - rewrite Hrun. simpl. apply Hfs. rewrite Horder.
    apply elem_of_seq. apply lookup_lt_Some in Hitem. lia.
Qed.

Lemma fate_crashed session url filename e :
  raises_in_try session url filename e ↔
  ∃ partial, download_fate session url filename = Crashed e partial.
Proof.
  unfold download_fate. split.
  - intros [Hget|r Hget Hs Hread|r c Hget Hs Hread Hdisk
            |r c k Hget Hs Hread Hdisk];
      rewrite Hget; [by eexists|rewrite Hs; simpl..].
    + rewrite Hread. by eexists.
    + rewrite Hread, Hdisk. by eexists.
    + rewrite Hread, Hdisk. by eexists.
  - intros [partial Hfate].
    destruct (get session url []) as [e'|r] eqn:Hget.
    { injection Hfate as -> _. by apply get_raises. }
    destruct (status r =? 200)%Z eqn:Hs; [|done].
    apply Z.eqb_eq in Hs.
    destruct (read r) as [e'|c] eqn:Hread.
    { injection Hfate as -> _. by eapply read_raises. }
    destruct (disk _ c) as [|e'|e' k] eqn:Hdisk; [done|..].
    + injection Hfate as -> _. by eapply open_raises.
    + injection Hfate as -> _. by eapply write_raises.
Qed.

(** C5: an exception raised by the request or by the file write is caught
    inside the task, which prints a diagnostic and returns [None]; the
    stage still returns normally, with a result for every item: [None]
    for the item that failed and, for every sibling, its own result. *)
Theorem download_exception_isolated session
    (items : list (gmap string jvalue)) sched w i item e :
  items !! i = Some item →
  raises_in_try session (item_url item) (space_name i) e →
  let diagnostic := "Error downloading " +:+ space_name i +:+ ": " +:+ e in
  (∀ pbar w0,
     (download_image session (item_url item) (space_name i) pbar w0).1
     = Ret None ∧
     diagnostic
     ∈ stdout (download_image session (item_url item) (space_name i)
                 pbar w0).2) ∧
  ∃ results w',
    download_stage session items sched w = (Ret results, w') ∧
    diagnostic ∈ stdout w' ∧
    results !! i = Some None ∧
    length results = length items ∧
    ∀ j item', items !! j = Some item' →
      results !! j
      = Some (fate_result (item_fate session j item') (space_name j)).
Proof.
  intros Hitem [partial Hfate]%fate_crashed diagnostic.
  split.
  { intros pbar w0. rewrite download_image_run, Hfate. simpl.
    split; [done|]. apply elem_of_app. right. by left. }
  destruct (download_stage_inv
    (λ done w', i ∈ done → diagnostic ∈ stdout w')
    session items sched w) as (w' & order & Hrun & Horder & Hdiag).
  - done.
  - by intros ?%elem_of_nil.
  - intros done j item' w0 Hitem' Hj Hd.
    destruct (decide (j = i)) as [->|Hne].
    + assert (item' = item) as -> by congruence.
      rewrite download_image_run, Hfate. simpl.
      intros _. apply elem_of_app. right. by left.
    + intros [?|Hin]%elem_of_cons; [congruence|].
      by apply download_image_stdout, Hd.
  - eexists _, _. split; [exact Hrun|]. simpl.
    assert (i < length items) as Hlt by (by eapply lookup_lt_Some).
    split_and!.
    + apply Hdiag. rewrite Horder. apply elem_of_seq. lia.
    + rewrite list_lookup_imap, Hitem. simpl.
      unfold item_fate. by rewrite Hfate.
    + by rewrite length_imap.
    + intros j item' Hitem'. by rewrite list_lookup_imap, Hitem'.
Qed.

End download_stage_claims.

(** ** The Analysis Stage *)

Lemma counter_bars pbar w1 w2 :
  bars w1 = bars w2 → counter pbar w1 = counter pbar w2.
Proof. unfold counter. by intros ->. Qed.

Section analysis_stage_claims.
Context {ext : Externals}.

(** A completing job moves the bar by exactly one, whatever it returns. *)
Lemma job_counts_once fname pbar w :
  pbar < length (bars w) →
  counter pbar
    (settle (add_done_callback
               (run_in_executor (detect_stars_and_process fname))
               (pbar_update pbar 1)) w).2
  = counter pbar w + 1.
Proof.
  intros Hp. destruct (detect_total fname w) as (s & w1 & Hrun).
  erewrite settle_callback; [|exact Hrun|done]. simpl.
  pose proof (detect_bars fname w) as Hb. rewrite Hrun in Hb. simpl in Hb.
  rewrite counter_update by (by rewrite Hb).
  by rewrite (counter_bars pbar w1 w).
Qed.


(** When [cv2.imread] answers [None], the job returns the error string
    for its file and leaves the world alone. *)
Lemma detect_load_failure fname w :
  imread (path_join SAVE_DIR fname) w = (Ret None, w) →
  detect_stars_and_process fname w = (Ret ("Error loading " +:+ fname), w).
Proof.
  unfold imread. intros [= Hload]. by rewrite detect_run, Hload.
Qed.

(** Over the names the Download Stage produces, the downloaded files are
    the same when a job starts as when the stage started: the jobs write
    only [detected_...] files. *)
Lemma analysis_stage_saved (idxs : list nat) sched w :
  ∃ summaries w',
    analysis_stage (space_name <$> idxs) sched w = (Ret summaries, w') ∧
    length summaries = length idxs ∧
    ∀ i k, idxs !! i = Some k →
      ∃ s, summaries !! i = Some s ∧
           (detect_stars_and_process (space_name k) w).1 = Ret s.
Proof.
  destruct (analysis_stage_inv
    (λ _ w', ∀ j, fs w' !! path_join SAVE_DIR (space_name j)
                  = fs w !! path_join SAVE_DIR (space_name j))
    (λ i s, ∃ k, idxs !! i = Some k ∧
                 (detect_stars_and_process (space_name k) w).1 = Ret s)
    (space_name <$> idxs) sched w)
    as (summaries & w' & order & Hrun & _ & _ & Hlen & Hres).
  - done.
  - intros done i fname w0 s w1 Hfile _ Hfs Hrun.
    rewrite list_lookup_fmap in Hfile.
    destruct (idxs !! i) as [k|] eqn:Hk; [|done].
    simpl in Hfile. injection Hfile as <-. split.
    + exists k. split; [done|].
      rewrite <-(detect_result_ext _ w0 w) by apply Hfs. by rewrite Hrun.
    + intros j. simpl. rewrite <-Hfs.
      pose proof (detect_fs (space_name k) w0
                    (path_join SAVE_DIR (space_name j))) as Hw.
      rewrite Hrun in Hw. apply Hw.
      intros Heq. symmetry in Heq. by apply detected_path_ne in Heq.
  - rewrite length_fmap in Hlen.
    eexists _, _. split; [exact Hrun|]. split; [done|].
    intros i k Hk.
    destruct (lookup_lt_is_Some_2 summaries i) as [s Hs].
    { rewrite Hlen. by eapply lookup_lt_Some. }
    exists s. split; [done|].
    destruct (Hres i s Hs) as (k' & Hk' & Hdet). congruence.
Qed.

(** The stage returns one summary per dispatched file, for any file
    names. *)
Lemma analysis_stage_total (files : list string) sched w :
  ∃ summaries w',
    analysis_stage files sched w = (Ret summaries, w') ∧
    length summaries = length files.
Proof.
  destruct (analysis_stage_inv (λ _ _, True) (λ _ _, True) files sched w)
    as (summaries & w' & order & Hrun & _ & _ & Hlen & _); [done|done|].
  by eexists _, _.
Qed.

(** For any file names: every summary is what the job of the file at its
    index returned, in the world that job found. *)
Lemma analysis_stage_any (files : list string) sched w :
  ∃ summaries w',
    analysis_stage files sched w = (Ret summaries, w') ∧
    Forall2 (λ fname s, ∃ w0, (detect_stars_and_process fname w0).1 = Ret s)
      files summaries.
Proof.
  destruct (analysis_stage_inv (λ _ _, True)
    (λ i s, ∃ fname w0, files !! i = Some fname ∧
              (detect_stars_and_process fname w0).1 = Ret s)
    files sched w)
    as (summaries & w' & order & Hrun & _ & _ & Hlen & Hres); [done|..].
  - intros done i fname w0 s w1 Hfile _ _ Hrun. split; [|done].
    exists fname, w0. by rewrite Hrun.
  - eexists _, _. split; [exact Hrun|].
    apply Forall2_same_length_lookup. split; [done|].
    intros i fname s Hfile Hs.
    destruct (Hres i s Hs) as (fname' & w0 & Hfile' & Hdet).
    exists w0. congruence.
Qed.

(** For any file names: every summary is what the job of the file at its
    index returned, in a world that differs from the world the stage
    started in at most in the annotated copies of the dispatched files. *)
Lemma analysis_stage_framed (files : list string) sched w :
  ∃ summaries w',
    analysis_stage files sched w = (Ret summaries, w') ∧
    Forall2
      (λ fname s, ∃ w0,
         (∀ path, (∀ f, f ∈ files → path ≠ output_path f) →
                  fs w0 !! path = fs w !! path) ∧
         (detect_stars_and_process fname w0).1 = Ret s)
      files summaries.
Proof.
  destruct (analysis_stage_inv
    (λ _ w', ∀ path, (∀ f, f ∈ files → path ≠ output_path f) →
                     fs w' !! path = fs w !! path)
    (λ i s, ∃ fname w0, files !! i = Some fname ∧
              (∀ path, (∀ f, f ∈ files → path ≠ output_path f) →
                       fs w0 !! path = fs w !! path) ∧
              (detect_stars_and_process fname w0).1 = Ret s)
    files sched w)
    as (summaries & w' & order & Hrun & _ & _ & Hlen & Hres); [done|..].
  - intros fin i fname w0 s w1 Hfile _ Hframe Hrun. split.
    + exists fname, w0. split; [done|]. split; [done|]. by rewrite Hrun.
    + intros path Hpath. simpl. rewrite <-(Hframe path Hpath).
      pose proof (detect_fs fname w0 path) as Hw. rewrite Hrun in Hw.
      apply Hw, Hpath. by eapply list_elem_of_lookup_2.
  - eexists _, _. split; [exact Hrun|].
    apply Forall2_same_length_lookup. split; [done|].
    intros i fname s Hfile Hs.
    destruct (Hres i s Hs) as (fname' & w0 & Hfile' & Hframe & Hdet).
    exists w0. split; [done|]. congruence.
Qed.

(** C3: a job whose image cannot be loaded returns the error string that
    names its file, without raising.  The stage returns normally with
    exactly one summary per dispatched file name; the summary at each
    index is what the job of the file at that index returned, in a world
    that differs from the starting one at most in the annotated copies.
    Over the names the Download Stage produces, the summary at each index
    is what [detect_stars_and_process] returns for that file in the world
    the stage started in: the count of stars for a file that loads, and
    the error string for a file that does not. *)
Theorem analysis_one_result_per_file :
  (∀ fname w0,
     imread (path_join SAVE_DIR fname) w0 = (Ret None, w0) →
     detect_stars_and_process fname w0
     = (Ret ("Error loading " +:+ fname), w0)) ∧
  (∀ (files : list string) sched w,
     ∃ summaries w',
       analysis_stage files sched w = (Ret summaries, w') ∧
       length summaries = length files ∧
       Forall2
         (λ fname s, ∃ w0,
            (∀ path, (∀ f, f ∈ files → path ≠ output_path f) →
                     fs w0 !! path = fs w !! path) ∧
            (detect_stars_and_process fname w0).1 = Ret s)
         files summaries ∧
       ((∃ idxs, files = space_name <$> idxs) →
        Forall2
          (λ fname s, (detect_stars_and_process fname w).1 = Ret s)
          files summaries ∧
        ∀ i fname, files !! i = Some fname →
          imread (path_join SAVE_DIR fname) w = (Ret None, w) →
          summaries !! i = Some ("Error loading " +:+ fname))).
Proof.
  split; [apply detect_load_failure|].
  intros files sched w.
  destruct (analysis_stage_framed files sched w)
    as (summaries & w' & Hrun & Hany).
  exists summaries, w'. split; [done|].
  split; [symmetry; by eapply Forall2_length|]. split; [done|].
  intros [idxs ->].
  destruct (analysis_stage_saved idxs sched w)
    as (summaries' & w'' & Hrun' & Hlen & Hres).
  rewrite Hrun in Hrun'. injection Hrun' as <- <-.
  split.
  - apply Forall2_same_length_lookup.
    split; [by rewrite length_fmap|].
    intros i fname s Hfile Hs. rewrite list_lookup_fmap in Hfile.
    destruct (idxs !! i) as [k|] eqn:Hk; [|done].
    simpl in Hfile. injection Hfile as <-.
    destruct (Hres i k Hk) as (s' & Hs' & Hdet). congruence.
  - intros i fname Hfile Hload.
    rewrite list_lookup_fmap in Hfile.
    destruct (idxs !! i) as [k|] eqn:Hk; [|done].
    simpl in Hfile. injection Hfile as <-.
    destruct (Hres i k Hk) as (s & Hs & Hdet).
    rewrite (detect_load_failure _ _ Hload) in Hdet. simpl in Hdet.
    by injection Hdet as <-.
Qed.

(** C10: whatever order the jobs complete in, the summaries come back in
    the order of the file names: the [i]-th summary is what
    [detect_stars_and_process] returned for the [i]-th file; and over the
    names the Download Stage produces it is what that function returns
    for the [i]-th file in the world the stage started in. *)
Theorem analysis_order_preserved (files : list string) sched w :
  ∃ summaries w',
    analysis_stage files sched w = (Ret summaries, w') ∧
    Forall2 (λ fname s, ∃ w0, (detect_stars_and_process fname w0).1 = Ret s)
      files summaries ∧
    ((∃ idxs, files = space_name <$> idxs) →
     Forall2 (λ fname s, (detect_stars_and_process fname w).1 = Ret s)
       files summaries).
Proof.
  destruct (analysis_stage_any files sched w)
    as (summaries & w' & Hrun & Hany).
  exists summaries, w'. split; [done|]. split; [done|].
  intros [idxs ->].
  destruct (analysis_stage_saved idxs sched w)
    as (summaries' & w'' & Hrun' & Hlen & Hres).
  rewrite Hrun in Hrun'. injection Hrun' as <- <-.
  apply Forall2_same_length_lookup.
  split; [by rewrite length_fmap|].
  intros i fname s Hfile Hs. rewrite list_lookup_fmap in Hfile.
  destruct (idxs !! i) as [k|] eqn:Hk; [|done].
  simpl in Hfile. injection Hfile as <-.
  destruct (Hres i k Hk) as (s' & Hs' & Hdet). congruence.
Qed.

(** C9: with no filtered item, the Download Stage returns the empty list
    and the Analysis Stage, given the empty list that is kept of it,
    returns the empty list; each leaves behind only its own bar, of total
    0, at count 0 and closed. *)
Theorem empty_stages session sched_download sched_analysis w1 w2 :
  download_stage session [] sched_download w1
  = (Ret [], set_bars (λ bs, bs ++ [Tqdm 0 "Downloading" "img" 0 true]) w1) ∧
  keep_saved [] = [] ∧
  analysis_stage (keep_saved []) sched_analysis w2
  = (Ret [], set_bars (λ bs, bs ++ [Tqdm 0 "Analyzing" "img" 0 true]) w2).
Proof.
  assert (∀ (bs : list tqdm) b,
            alter tqdm_close_bar (length bs) (bs ++ [b])
            = bs ++ [tqdm_close_bar b]) as Hclose.
  { intros bs b. induction bs as [|b' bs IH]; [done|].
    simpl. by rewrite <-IH. }
  unfold download_stage, analysis_stage, gather, tqdm_new, pbar_close.
  unfold mbind, M_bind, bind, set_bars. simpl.
  by rewrite !Hclose.
Qed.

End analysis_stage_claims.

(** ** The metadata filter and the download URL *)

Section fetch_claims.
Context {ext : Externals}.

Lemma is_image_spec (item : gmap string jvalue) :
  is_image item ↔ item !! "media_type" = Some (JStr "image").
Proof.
  unfold is_image, dict_get, eq_str.
  destruct (item !! "media_type") as [[| | | |s| |]|]; simpl;
    try (split; [by intros []|done]).
  destruct (String.eqb_spec s "image") as [->|Hne]; [done|].
  split; [by intros []|congruence].
Qed.

Lemma image_items_objects (items : list (gmap string jvalue)) :
  image_items (JObj <$> items) = inr (filter is_image items).
Proof.
  induction items as [|item items IH]; [done|].
  rewrite fmap_cons. simpl. rewrite IH, filter_cons. f_equal.
  fold (is_image item). by destruct (is_image item).
Qed.

Lemma bind_run {A B} (m : M A) (k : A → M B) w a w' :
  m w = (Ret a, w') → (m ≫= k) w = k a w'.
Proof. intros Hm. unfold mbind, M_bind, bind. by rewrite Hm. Qed.

(** A download sends exactly one request, to the URL it was given. *)
Lemma download_image_requests session url filename pbar w :
  requests (download_image session url filename pbar w).2
  = requests w ++ [url].
Proof.
  rewrite download_image_run.
  by destruct (download_fate session url filename).
Qed.

Lemma detect_requests filename w :
  requests (detect_stars_and_process filename w).2 = requests w.
Proof.
  rewrite detect_run. destruct (_ ≫= imdecode); [|done].
  simpl. by destruct (imencode _ _).
Qed.

(** The requests of the Download Stage are the URLs of its items, one
    each, in item order, whatever the order in which the downloads
    complete: every download sends its request when the gathering starts
    its task. *)
Lemma download_stage_requests session (items : list (gmap string jvalue))
    sched w :
  requests (download_stage session items sched w).2
  = requests w ++ (item_url <$> items).
Proof.
  destruct (download_stage_rule
    (λ _ w', requests w' = requests w ++ (item_url <$> items))
    session items sched w) as (w' & Hrun & Hreq).
  - done.
  - intros fin i item w0 _ _ Hd. by rewrite later_steps_requests.
  - by rewrite Hrun.
Qed.

(** The Analysis Stage sends no request. *)
Lemma analysis_stage_requests (files : list string) sched w :
  requests (analysis_stage files sched w).2 = requests w.
Proof.
  destruct (analysis_stage_inv (λ _ w', requests w' = requests w)
              (λ _ _, True) files sched w)
    as (summaries & w' & order & Hrun & _ & Hreq & _).
  - done.
  - intros done i fname w0 s w1 _ _ Hd Hdet. split; [done|].
    simpl. rewrite <-Hd.
    pose proof (detect_requests fname w0) as Hw. by rewrite Hdet in Hw.
  - by rewrite Hrun.
Qed.

Lemma print_all_run (lines : list string) w :
  ∃ w', foldr (λ line k, print line;; k) (mret ()) lines w = (Ret (), w') ∧
        requests w' = requests w.
Proof.
  revert w. induction lines as [|line lines IH]; intros w; [by eexists|].
  simpl. destruct (IH (set_stdout (λ out, out ++ [line]) w)) as (w' & Hrun & Hreq).
  exists w'. split; [|done].
  by rewrite (bind_run (print line) _ w () _ eq_refl).
Qed.

(** The requests of a whole run: the metadata request, then one request
    per image item of the response, in item order, and nothing else. *)
Lemma main_requests (items : list (gmap string jvalue)) response
    sched_download sched_analysis w :
  get ClientSession (JStr BASE_URL)
    [("api_key", JStr NASA_API_KEY); ("count", JInt 10)] = inr response →
  json response = inr (JArr (JObj <$> items)) →
  requests (main sched_download sched_analysis w).2
  = requests w ++ JStr BASE_URL :: (item_url <$> filter is_image items).
Proof.
  intros Hget Hjson. unfold main.
  assert (fetch_valid_items ClientSession w
          = (Ret (filter is_image items),
             set_requests (λ sent, sent ++ [JStr BASE_URL]) w)) as Hfetch.
  { unfold fetch_valid_items, session_get, mbind, M_bind, bind, lift.
    rewrite Hget. simpl. rewrite Hjson. simpl.
    by rewrite image_items_objects. }
  rewrite (bind_run _ _ _ _ _ Hfetch).
  erewrite bind_run by reflexivity.
  set (w2 := set_stdout _ _).
  destruct (download_stage_run ClientSession (filter is_image items)
              sched_download w2) as [w3 Hdl].
  pose proof (download_stage_requests ClientSession (filter is_image items)
                sched_download w2) as Hreq3.
  rewrite Hdl in Hreq3. simpl in Hreq3.
  rewrite (bind_run _ _ _ _ _ Hdl).
  erewrite bind_run by reflexivity.
  set (w4 := set_stdout _ w3).
  set (files := keep_saved _).
  destruct (analysis_stage_total files sched_analysis w4)
    as (summaries & w5 & Han & _).
  pose proof (analysis_stage_requests files sched_analysis w4) as Hreq5.
  rewrite Han in Hreq5. simpl in Hreq5.
  rewrite (bind_run _ _ _ _ _ Han).
  erewrite bind_run by reflexivity.
  set (w6 := set_stdout _ w5).
  destruct (print_all_run ((λ summary, "🔍 " +:+ summary) <$> summaries) w6)
    as (w7 & Hprint & Hreq7).
  assert (foldr (λ summary k, print ("🔍 " +:+ summary);; k) (mret ())
            summaries
          = foldr (λ line k, print line;; k) (mret ())
              ((λ summary, "🔍 " +:+ summary) <$> summaries)) as ->.
  { clear. induction summaries as [|s l IH]; [done|]. simpl. by rewrite IH. }
  rewrite (bind_run _ _ _ _ _ Hprint). simpl.
  rewrite Hreq7. unfold w6. simpl. rewrite Hreq5. unfold w4. simpl.
  rewrite Hreq3. unfold w2. simpl.
  by rewrite <-app_assoc.
Qed.

(** C7: of an API response that is an array of objects, the filter keeps
    exactly the objects whose [media_type] is the string ["image"], in
    their order; the metadata step of [main] returns that list; the
    download tasks are made from it, one per kept item; and the requests
    of the Download Stage are the URLs of the kept items, one each. *)
Theorem only_images_are_kept (items : list (gmap string jvalue)) :
  let kept := filter is_image items in
  (∀ item, is_image item ↔ item !! "media_type" = Some (JStr "image")) ∧
  valid_items_of (JArr (JObj <$> items)) = inr kept ∧
  (∀ session response w,
     get session (JStr BASE_URL)
       [("api_key", JStr NASA_API_KEY); ("count", JInt 10)] = inr response →
     json response = inr (JArr (JObj <$> items)) →
     fetch_valid_items session w
     = (Ret kept, set_requests (λ sent, sent ++ [JStr BASE_URL]) w)) ∧
  (∀ session pbar,
     download_tasks session kept pbar
     = imap (λ i item, download_image session (item_url item) (space_name i)
                         pbar) kept) ∧
  (∀ session sched w,
     requests (download_stage session kept sched w).2
     ≡ₚ requests w ++ (item_url <$> kept)).
Proof.
  intros kept. split; [apply is_image_spec|].
  split; [apply image_items_objects|]. split; [|split; [done|]].
  - intros session response w Hget Hjson.
    unfold fetch_valid_items, session_get, mbind, M_bind, bind, lift.
    rewrite Hget. simpl. rewrite Hjson. simpl.
    by rewrite image_items_objects.
  - intros session sched w. by rewrite download_stage_requests.
Qed.

(** C8, as amended: the URL of a download is the item's [hdurl] when that
    field is present and truthy (for a string: not empty), and otherwise
    whatever [item.get("url")] gives; the task made for the item sends its
    one request to that URL. *)
Theorem download_url_choice (item : gmap string jvalue) :
  item_url item
  = match item !! "hdurl" with
    | Some v => if truthy v then v else dict_get "url" item
    | None => dict_get "url" item
    end ∧
  ∀ session (items : list (gmap string jvalue)) pbar i,
    items !! i = Some item →
    ∃ task,
      download_tasks session items pbar !! i = Some task ∧
      ∀ w, requests (task w).2 = requests w ++ [item_url item].
Proof.
  split.
  - unfold item_url, py_or, dict_get. by destruct (item !! "hdurl").
  - intros session items pbar i Hitem. eexists. split.
    + unfold download_tasks. by rewrite list_lookup_imap, Hitem.
    + intros w. apply download_image_requests.
Qed.

End fetch_claims.

(** ** Concrete runs *)

(** C1, at the failing input: a single filtered item whose server answers
    404.  The stage attempts one download and returns its failure marker,
    but the bar still shows 0: the non-200 branch of [download_image]
    never reaches a [pbar.update(1)]. *)
Theorem download_counter_misses_non200 :
  length [Demo.item_gone] = 1 ∧
  (download_stage (ext := Demo.externals) Demo.demo_session
     [Demo.item_gone] [] Demo.world0).1 = Ret [None] ∧
  counter (next_bar Demo.world0)
    (download_stage (ext := Demo.externals) Demo.demo_session
       [Demo.item_gone] [] Demo.world0).2 = 0.
Proof. by vm_compute. Qed.

(** C4 on a concrete run: the second of two items is answered with 404
    and completes first. *)
Lemma download_non200_isolated_witness :
  ∃ results w',
    download_stage (ext := Demo.externals) Demo.demo_session
      [Demo.item_good; Demo.item_gone] [1] Demo.world0 = (Ret results, w') ∧
    "Failed to download space_1.jpg: 404" ∈ stdout w' ∧
    fs w' !! "images/space_1.jpg" = None ∧
    results = [Some "space_0.jpg"; None] ∧
    keep_saved results = ["space_0.jpg"].
Proof.
  destruct (download_non200_isolated (ext := Demo.externals)
              Demo.demo_session [Demo.item_good; Demo.item_gone] [1]
              Demo.world0 1 Demo.item_gone
              (Response 404 (inr []) (inl "not JSON")))
    as [_ (results & w' & Hrun & Hdiag & Hfs & _)].
  - reflexivity.
  - vm_compute. reflexivity.
  - simpl. lia.
  - exists results, w'. split; [exact Hrun|]. split; [exact Hdiag|].
    split; [exact Hfs|].
    vm_compute in Hrun. injection Hrun as <- _. split; reflexivity.
Defined.

(** C5 on a concrete run: the host of the third item cannot be reached. *)
Lemma download_exception_isolated_witness :
  ∃ results w',
    download_stage (ext := Demo.externals) Demo.demo_session
      [Demo.item_good; Demo.item_gone; Demo.item_down] [2; 0] Demo.world0
    = (Ret results, w') ∧
    "Error downloading space_2.jpg: Cannot connect to host" ∈ stdout w' ∧
    results = [Some "space_0.jpg"; None; None].
Proof.
  destruct (download_exception_isolated (ext := Demo.externals)
              Demo.demo_session
              [Demo.item_good; Demo.item_gone; Demo.item_down] [2; 0]
              Demo.world0 2 Demo.item_down "Cannot connect to host")
    as [_ (results & w' & Hrun & Hdiag & _)].
  - reflexivity.
  - apply get_raises. vm_compute. reflexivity.
  - exists results, w'. split; [exact Hrun|]. split; [exact Hdiag|].
    vm_compute in Hrun. by injection Hrun as <- _.
Defined.

(** C2 on a concrete run: of three items only the first is saved, and the
    last one completes first. *)
Lemma download_stage_results_witness :
  ∃ w',
    download_stage (ext := Demo.externals) Demo.demo_session
      [Demo.item_good; Demo.item_gone; Demo.item_down] [2; 0] Demo.world0
    = (Ret [Some "space_0.jpg"; None; None], w') ∧
    keep_saved [Some "space_0.jpg"; None; None] = ["space_0.jpg"].
Proof.
  destruct (download_stage_results (ext := Demo.externals) Demo.demo_session
              [Demo.item_good; Demo.item_gone; Demo.item_down] [2; 0]
              Demo.world0) as (results & w' & Hrun & Hlen & Hres & Hkeep).
  pose proof (Hres 0 _ eq_refl) as H0.
  pose proof (Hres 1 _ eq_refl) as H1.
  pose proof (Hres 2 _ eq_refl) as H2.
  vm_compute in H0, H1, H2.
  destruct results as [|r0 [|r1 [|r2 [|]]]]; try discriminate Hlen.
  injection H0 as ->. injection H1 as ->. injection H2 as ->.
  exists w'. split; [exact Hrun|exact Hkeep].
Defined.

(** C3 on a concrete run: [space_0.jpg] loads and [space_1.jpg] is on
    disk but cannot be decoded; the second job completes first. *)
Lemma analysis_one_result_per_file_witness :
  ∃ w',
    analysis_stage (ext := Demo.externals) ["space_0.jpg"; "space_1.jpg"]
      [1] Demo.world_mixed
    = (Ret ["Found 2 stars in space_0.jpg"; "Error loading space_1.jpg"],
       w').
Proof.
  destruct (proj2 (analysis_one_result_per_file (ext := Demo.externals))
              ["space_0.jpg"; "space_1.jpg"] [1] Demo.world_mixed)
    as (summaries & w' & Hrun & Hlen & _ & Hsaved).
  destruct (Hsaved (ex_intro _ [0; 1] eq_refl)) as [Hall Herr].
  apply Forall2_cons_inv_l in Hall as (s0 & rest & H0 & Hall & ->).
  apply Forall2_cons_inv_l in Hall as (s1 & rest' & _ & Hall & ->).
  apply Forall2_nil_inv_l in Hall as ->.
  vm_compute in H0. injection H0 as <-.
  pose proof (Herr 1 "space_1.jpg" eq_refl eq_refl) as H1.
  injection H1 as ->.
  exists w'. exact Hrun.
Defined.

(** C7 on a concrete run: the video of the response is dropped and the
    three images are kept in their order. *)
Lemma only_images_are_kept_witness :
  fetch_valid_items (ext := Demo.externals) Demo.demo_session Demo.world0
  = (Ret [Demo.item_good; Demo.item_gone; Demo.item_down],
     set_requests (λ sent, sent ++ [JStr Demo.api_url]) Demo.world0).
Proof.
  apply (proj1 (proj2 (proj2 (only_images_are_kept (ext := Demo.externals)
           [Demo.item_good; Demo.item_video; Demo.item_gone;
            Demo.item_down])))
         Demo.demo_session (Response 200 (inr []) (inr Demo.data))
         Demo.world0).
  - vm_compute. reflexivity.
  - reflexivity.
Defined.

(** C8, as amended, on a concrete run: the task of an item whose [hdurl]
    is empty requests the item's [url]. *)
Lemma download_url_choice_witness :
  ∃ task,
    download_tasks (ext := Demo.externals) Demo.demo_session
      [Demo.item_empty_hd] 0 !! 0 = Some task ∧
    requests (task Demo.world0).2 = [JStr Demo.good_url].
Proof.
  destruct (proj2 (download_url_choice (ext := Demo.externals)
                     Demo.item_empty_hd)
              Demo.demo_session [Demo.item_empty_hd] 0 0)
    as (task & Htask & Hreq).
  - reflexivity.
  - exists task. split; [exact Htask|]. exact (Hreq Demo.world0).
Defined.

(** C10 on a concrete run: the second job completes first, and the
    summaries still come back in the order of the files. *)
Lemma analysis_order_preserved_witness :
  ∃ w',
    analysis_stage (ext := Demo.externals) ["space_0.jpg"; "space_1.jpg"]
      [1] Demo.world_two
    = (Ret ["Found 2 stars in space_0.jpg"; "Found 1 stars in space_1.jpg"],
       w').
Proof.
  destruct (analysis_order_preserved (ext := Demo.externals)
              ["space_0.jpg"; "space_1.jpg"] [1] Demo.world_two)
    as (summaries & w' & Hrun & _ & Hsaved).
  specialize (Hsaved (ex_intro _ [0; 1] eq_refl)).
  apply Forall2_cons_inv_l in Hsaved as (s0 & rest & H0 & Hsaved & ->).
  apply Forall2_cons_inv_l in Hsaved as (s1 & rest' & H1 & Hsaved & ->).
  apply Forall2_nil_inv_l in Hsaved as ->.
  vm_compute in H0, H1. injection H0 as <-. injection H1 as <-.
  exists w'. exact Hrun.
Defined.

(** C8, as stated, fails for an item whose [hdurl] is present but empty:
    the request goes to its [url]. *)
Lemma download_url_empty_hdurl :
  Demo.item_empty_hd !! "hdurl" = Some (JStr "") ∧
  claimed_url Demo.item_empty_hd = JStr "" ∧
  item_url Demo.item_empty_hd = JStr Demo.good_url ∧
  item_url Demo.item_empty_hd ≠ claimed_url Demo.item_empty_hd.
Proof. by vm_compute. Qed.


(** * Further properties of the two stages and of [main] *)

(** ** One download, component by component *)

Section download_effects.
Context {ext : Externals}.

Lemma download_image_files session url filename pbar w :
  fs (download_image session url filename pbar w).2
  = store (download_fate session url filename)
      (path_join SAVE_DIR filename) (fs w).
Proof.
  rewrite download_image_run.
  by destruct (download_fate session url filename) as [c|code|e [c|]].
Qed.

Lemma download_image_console session url filename pbar w :
  stdout (download_image session url filename pbar w).2
  = stdout w
    ++ option_list (failure_line (download_fate session url filename)
                      filename).
Proof.
  rewrite download_image_run.
  destruct (download_fate session url filename); simpl; [|done..].
  by rewrite app_nil_r.
Qed.

Lemma download_image_bars session url filename pbar w :
  bars (download_image session url filename pbar w).2
  = if is_refused (download_fate session url filename) then bars w
    else alter (tqdm_update_bar 1) pbar (bars w).
Proof.
  rewrite download_image_run.
  by destruct (download_fate session url filename).
Qed.

Lemma fate_at_lookup session (items : list (gmap string jvalue)) i item :
  items !! i = Some item →
  fate_at session items i = Some (item_fate session i item).
Proof. unfold fate_at. by intros ->. Qed.

Lemma refused_at_fate session (items : list (gmap string jvalue)) i item :
  items !! i = Some item →
  refused_at session items i = is_refused (item_fate session i item).
Proof. unfold refused_at. by intros ->. Qed.

(** Downloads of two different positions write to two different paths,
    so what they do to the files commutes. *)
Lemma store_at_comm session (items : list (gmap string jvalue)) i j files :
  i ≠ j →
  store_at session items i (store_at session items j files)
  = store_at session items j (store_at session items i files).
Proof.
  intros Hne. unfold store_at.
  assert (target_path i ≠ target_path j) as Hpath.
  { intros Heq%space_path_inj. done. }
  destruct (fate_at session items i) as [[c|code|e [c|]]|],
    (fate_at session items j) as [[c'|code'|e' [c'|]]|]; simpl;
    try done; by apply insert_insert_ne.
Qed.

Lemma disk_after_order session (items : list (gmap string jvalue)) files
    (order : list nat) :
  order ≡ₚ seq 0 (length items) →
  foldr (store_at session items) files order
  = disk_after session items files.
Proof.
  intros Horder. unfold disk_after.
  apply (foldr_permutation (=) (store_at session items) files); [|done].
  intros j1 a1 j2 a2 m Hj Ha1 Ha2. apply store_at_comm.
  intros ->. apply Hj.
  assert (NoDup order) as Hnd by (rewrite Horder; apply NoDup_seq).
  by eapply NoDup_lookup.
Qed.

Lemma alter_last {A} (f : A → A) (l : list A) (x : A) :
  alter f (length l) (l ++ [x]) = l ++ [f x].
Proof. by rewrite <-(Nat.add_0_r (length l)), alter_app_r. Qed.

Lemma download_stage_bars session (items : list (gmap string jvalue))
    sched w :
  bars (download_stage session items sched w).2
  = bars w
    ++ [Tqdm (length items) "Downloading" "img"
          (length items
           - length (filter (λ i, refused_at session items i)
                       (seq 0 (length items))))
          true].
Proof.
  destruct (download_stage_inv
    (λ fin w', ∃ k,
       bars w' = bars w ++ [Tqdm (length items) "Downloading" "img" k false] ∧
       k + length (filter (λ i, refused_at session items i) fin)
       = length fin)
    session items sched w) as (w' & order & Hrun & Horder & k & Hbars & Hk).
  - done.
  - by exists 0.
  - intros fin i item w0 Hitem _ (k & Hbars & Hk).
    rewrite download_image_bars.
    pose proof (refused_at_fate session items i item Hitem) as Hr.
    unfold item_fate in Hr.
    destruct (is_refused (download_fate session (item_url item)
                            (space_name i))).
    + exists k. split; [done|].
      rewrite filter_cons_True by (by rewrite Hr). simpl. lia.
    + exists (k + 1). split.
      * unfold next_bar. by rewrite Hbars, alter_last.
      * rewrite filter_cons_False by (rewrite Hr; by intros []). simpl. lia.
  - rewrite Hrun. simpl. unfold next_bar. rewrite Hbars, alter_last.
    do 2 f_equal. unfold tqdm_close_bar. simpl. f_equal.
    rewrite <-Horder in *. rewrite Horder, length_seq in Hk.
    rewrite <-Hk at 1. rewrite Horder. lia.
Qed.

(** X1: when the Download Stage is over, the bars that existed before are
    as they were and one bar has been added: it is closed, its total is
    the number of items, and its count is the number of items minus the
    number of requests answered with a status other than 200. *)
Theorem download_stage_bar_final session (items : list (gmap string jvalue))
    sched w :
  bars (download_stage session items sched w).2
  = bars w
    ++ [Tqdm (length items) "Downloading" "img"
          (length items
           - length (filter (λ i, refused_at session items i)
                       (seq 0 (length items))))
          true].
Proof. apply download_stage_bars. Qed.

(** X2: the files after the Download Stage do not depend on the order in
    which the downloads complete: they are the files before, with the
    whole body at [space_<i>.jpg] for every saved item, what a failing
    write had flushed at the path of an item whose write failed, and
    nothing else changed. *)
Theorem download_stage_disk session (items : list (gmap string jvalue))
    sched w :
  fs (download_stage session items sched w).2
  = disk_after session items (fs w).
Proof.
  destruct (download_stage_inv
    (λ fin w', fs w' = foldr (store_at session items) (fs w) fin)
    session items sched w) as (w' & order & Hrun & Horder & Hfs).
  - done.
  - done.
  - intros fin i item w0 Hitem _ Hfs.
    rewrite download_image_files. simpl. rewrite <-Hfs.
    unfold store_at. by rewrite (fate_at_lookup _ _ _ _ Hitem).
  - rewrite Hrun. simpl. rewrite Hfs. by apply disk_after_order.
Qed.

(** The console after the Download Stage: the lines of the downloads
    that were not saved, in the order in which the downloads completed. *)
Lemma download_stage_stdout_order session
    (items : list (gmap string jvalue)) sched w :
  stdout (download_stage session items sched w).2
  = stdout w
    ++ omap (failure_line_at session items)
         (completion_order sched (length items)).
Proof.
  destruct (download_stage_inv_order
    (λ fin w', stdout w'
       = stdout w ++ omap (failure_line_at session items) (reverse fin))
    session items sched w) as (w' & Hrun & Hout).
  - done.
  - simpl. by rewrite app_nil_r.
  - intros fin i item w0 Hitem _ Hout.
    rewrite download_image_console, Hout, reverse_cons, omap_app.
    rewrite <-app_assoc. do 2 f_equal. simpl.
    unfold failure_line_at. rewrite (fate_at_lookup _ _ _ _ Hitem). simpl.
    unfold item_fate. by destruct (failure_line _ _).
  - rewrite Hrun. simpl. by rewrite Hout, reverse_involutive.
Qed.

(** X3: the Download Stage keeps what was on the console and adds one
    line per item that was not saved, in the order in which the downloads
    complete: going through the completion order of the schedule, the
    status line of each non-200 answer and the error line of each
    exception; a saved item prints nothing. *)
Theorem download_stage_console session (items : list (gmap string jvalue))
    sched w :
  stdout (download_stage session items sched w).2
  = stdout w
    ++ omap (failure_line_at session items)
         (completion_order sched (length items)).
Proof. apply download_stage_stdout_order. Qed.

End download_effects.

(** ** File names of a run *)

Section paths_of_a_run.
Context {ext : Externals}.

Lemma after_slash_detected (i : nat) :
  after_slash ("detected_" +:+ space_name i) = None.
Proof.
  rewrite after_slash_app_None. split; [done|apply after_slash_space_name].
Qed.

Lemma output_path_inj (i j : nat) :
  output_path (space_name i) = output_path (space_name j) → i = j.
Proof.
  unfold output_path. intros Heq.
  apply path_join_name_inj in Heq; [|apply after_slash_detected..].
  apply (inj (String.app "detected_")) in Heq. by apply space_name_inj.
Qed.

(** X4: in one run no two downloads are saved to the same path, no two
    annotated copies are written to the same path, and no annotated copy
    is written to the path of a download, whatever the two directories
    of [config] are (even when they are the same directory). *)
Theorem run_paths_distinct (count : nat) :
  NoDup (target_path <$> seq 0 count) ∧
  NoDup ((λ i, output_path (space_name i)) <$> seq 0 count) ∧
  ∀ i j, output_path (space_name i) ≠ target_path j.
Proof.
  split_and!.
  - apply NoDup_fmap_2_strong; [|apply NoDup_seq].
    intros i j _ _. apply space_path_inj.
  - apply NoDup_fmap_2_strong; [|apply NoDup_seq].
    intros i j _ _. apply output_path_inj.
  - intros i j. apply detected_path_ne.
Qed.

(** X5: [download_image] never lets an exception out.  It returns the
    file name exactly when the request is answered with status 200, the
    body is read and the disk takes all of it, and the file then holds
    the whole body; in every other case it returns [None]. *)
Theorem download_image_contract session url filename pbar w :
  ∃ r w',
    download_image session url filename pbar w = (Ret r, w') ∧
    (∀ response content,
       get session url [] = inr response → status response = 200%Z →
       read response = inr content →
       disk (path_join SAVE_DIR filename) content = Written →
       r = Some filename ∧
       fs w' !! path_join SAVE_DIR filename = Some content) ∧
    (r = None ∨
     ∃ response content,
       r = Some filename ∧
       get session url [] = inr response ∧ status response = 200%Z ∧
       read response = inr content ∧
       disk (path_join SAVE_DIR filename) content = Written).
Proof.
  rewrite download_image_run.
  destruct (download_fate session url filename) as [c|code|e p] eqn:Hfate;
    eexists _, _; (split; [reflexivity|]).
  - assert (is_saved (download_fate session url filename)) as Hs
      by (by rewrite Hfate).
    apply fate_saved in Hs as (r & c' & Hget & Hst & Hread & Hdisk).
    assert (c' = c) as ->.
    { unfold download_fate in Hfate.
      rewrite Hget, Hst, Hread, Hdisk in Hfate. simpl in Hfate.
      by injection Hfate. }
    split.
    + intros r' c'' Hget' _ Hread' _.
      rewrite Hget in Hget'. injection Hget' as <-.
      rewrite Hread in Hread'. injection Hread' as <-.
      split; [done|]. simpl. apply lookup_insert_eq.
    + right. by exists r, c.
  - split; [|by left].
    intros r c Hget Hst Hread Hdisk.
    assert (is_saved (download_fate session url filename)) as Hs
      by (apply fate_saved; by exists r, c).
    by rewrite Hfate in Hs.
  - split; [|by left].
    intros r c Hget Hst Hread Hdisk.
    assert (is_saved (download_fate session url filename)) as Hs
      by (apply fate_saved; by exists r, c).
    by rewrite Hfate in Hs.
Qed.

(** X6: every name the caller keeps for the Analysis Stage is the name
    of a saved position, and when the Download Stage is over its file is
    on disk and holds the whole body of the response. *)
Theorem kept_names_on_disk session (items : list (gmap string jvalue))
    sched w :
  ∃ results w',
    download_stage session items sched w = (Ret results, w') ∧
    ∀ name, name ∈ keep_saved results →
      ∃ i content,
        name = space_name i ∧
        saved_body session items i = Some content ∧
        fs w' !! path_join SAVE_DIR name = Some content.
Proof.
  destruct (download_stage_run session items sched w) as [w' Hrun].
  eexists _, w'. split; [exact Hrun|].
  intros name. rewrite keep_saved_results.
  intros (i & -> & Hi)%list_elem_of_fmap.
  apply list_elem_of_filter in Hi as [Hsaved _].
  unfold saved_at in Hsaved.
  destruct (items !! i) as [item|] eqn:Hitem; [|done]. simpl in Hsaved.
  destruct (item_fate session i item) as [c| |] eqn:Hfate; try done.
  exists i, c. split; [done|]. split.
  - unfold saved_body. rewrite (fate_at_lookup _ _ _ _ Hitem). simpl.
    by rewrite Hfate.
  - pose proof (download_stage_files session items sched w i item c
                  Hitem Hfate) as Hfs.
    by rewrite Hrun in Hfs.
Qed.

End paths_of_a_run.

(** ** What the Analysis Stage changes and what it leaves alone *)

Section analysis_effects.
Context {ext : Externals}.

Lemma detect_stdout filename w :
  stdout (detect_stars_and_process filename w).2 = stdout w.
Proof.
  rewrite detect_run. destruct (_ ≫= imdecode); [|done].
  simpl. by destruct (imencode _ _).
Qed.

(** The result of a job and the file it leaves, read off the content of
    its input file. *)
Lemma detect_on_content filename w content :
  fs w !! path_join SAVE_DIR filename = Some content →
  (detect_stars_and_process filename w).1
  = Ret (summary_of_body filename content) ∧
  fs (detect_stars_and_process filename w).2 !! output_path filename
  = match annotated_copy filename content with
    | Some copy => Some copy
    | None => fs w !! output_path filename
    end.
Proof.
  intros Hfile. rewrite detect_run, Hfile. simpl.
  unfold summary_of_body, annotated_copy, output_path.
  destruct (imdecode content) as [img|]; simpl; [|done].
  destruct (imencode _ _); simpl; [|done].
  split; [done|]. apply lookup_insert_eq.
Qed.

Lemma analysis_stage_stdout (files : list string) sched w :
  stdout (analysis_stage files sched w).2 = stdout w.
Proof.
  destruct (analysis_stage_inv (λ _ w', stdout w' = stdout w)
              (λ _ _, True) files sched w)
    as (summaries & w' & order & Hrun & _ & Hout & _).
  - done.
  - intros fin i fname w0 s w1 _ _ Hd Hdet. split; [done|].
    simpl. rewrite <-Hd.
    pose proof (detect_stdout fname w0) as Hw. by rewrite Hdet in Hw.
  - by rewrite Hrun.
Qed.

Lemma analysis_stage_bars (files : list string) sched w :
  bars (analysis_stage files sched w).2
  = bars w
    ++ [Tqdm (length files) "Analyzing" "img" (length files) true].
Proof.
  destruct (analysis_stage_inv
    (λ fin w', bars w'
       = bars w ++ [Tqdm (length files) "Analyzing" "img" (length fin) false])
    (λ _ _, True) files sched w)
    as (summaries & w' & order & Hrun & Horder & Hbars & _).
  - done.
  - intros fin i fname w0 s w1 _ _ Hd Hdet. split; [done|].
    pose proof (detect_bars fname w0) as Hb. rewrite Hdet in Hb.
    simpl in *. unfold next_bar. rewrite Hb, Hd, alter_last.
    do 2 f_equal. unfold tqdm_update_bar. simpl. f_equal. lia.
  - rewrite Hrun. simpl. unfold next_bar. rewrite Hbars, alter_last.
    by rewrite Horder, length_seq.
Qed.

Lemma analysis_stage_frame (files : list string) sched w path :
  (∀ fname, fname ∈ files → path ≠ output_path fname) →
  fs (analysis_stage files sched w).2 !! path = fs w !! path.
Proof.
  intros Hpath.
  destruct (analysis_stage_inv (λ _ w', fs w' !! path = fs w !! path)
              (λ _ _, True) files sched w)
    as (summaries & w' & order & Hrun & _ & Hfs & _).
  - done.
  - intros fin i fname w0 s w1 Hfile _ Hd Hdet. split; [done|].
    simpl. rewrite <-Hd.
    pose proof (detect_fs fname w0 path) as Hw. rewrite Hdet in Hw.
    apply Hw, Hpath. by eapply list_elem_of_lookup_2.
  - by rewrite Hrun.
Qed.

(** X7: the Analysis Stage prints nothing and sends no request; it
    leaves the bars that existed as they were and adds one bar, closed,
    whose total and count are both the number of dispatched files. *)
Theorem analysis_stage_quiet (files : list string) sched w :
  stdout (analysis_stage files sched w).2 = stdout w ∧
  requests (analysis_stage files sched w).2 = requests w ∧
  bars (analysis_stage files sched w).2
  = bars w ++ [Tqdm (length files) "Analyzing" "img" (length files) true].
Proof.
  split; [apply analysis_stage_stdout|].
  split; [apply analysis_stage_requests|apply analysis_stage_bars].
Qed.

(** X8: the only files the Analysis Stage can create or change are the
    [detected_<name>] copies of the files it was given; in particular,
    given names of downloads, it leaves every downloaded file as it
    was. *)
Theorem analysis_stage_writes (files : list string) sched w :
  (∀ path,
     (∀ fname, fname ∈ files → path ≠ output_path fname) →
     fs (analysis_stage files sched w).2 !! path = fs w !! path) ∧
  ((∃ idxs, files = space_name <$> idxs) →
   ∀ j, fs (analysis_stage files sched w).2 !! target_path j
        = fs w !! target_path j).
Proof.
  split; [intros path; apply analysis_stage_frame|].
  intros [idxs ->] j. apply analysis_stage_frame.
  intros fname (k & -> & _)%list_elem_of_fmap Heq.
  symmetry in Heq. by apply detected_path_ne in Heq.
Qed.

Lemma analysis_stage_content (idxs : list nat) sched w i k content :
  idxs !! i = Some k →
  fs w !! target_path k = Some content →
  ∃ summaries w',
    analysis_stage (space_name <$> idxs) sched w = (Ret summaries, w') ∧
    summaries !! i = Some (summary_of_body (space_name k) content) ∧
    fs w' !! output_path (space_name k)
    = match annotated_copy (space_name k) content with
      | Some copy => Some copy
      | None => fs w !! output_path (space_name k)
      end.
Proof.
  intros Hk Hfile.
  destruct (analysis_stage_inv
    (λ fin w',
       (∀ j, fs w' !! target_path j = fs w !! target_path j) ∧
       fs w' !! output_path (space_name k)
       = if bool_decide (k ∈ ((λ i, default 0 (idxs !! i)) <$> fin))
         then match annotated_copy (space_name k) content with
              | Some copy => Some copy
              | None => fs w !! output_path (space_name k)
              end
         else fs w !! output_path (space_name k))
    (λ i' s, ∀ k', idxs !! i' = Some k' → ∀ c, fs w !! target_path k' = Some c →
               s = summary_of_body (space_name k') c)
    (space_name <$> idxs) sched w)
    as (summaries & w' & order & Hrun & Horder & [Hsave Hout] & Hlen & Hres).
  - done.
  - intros fin j fname w0 s w1 Hfname _ [Hsave Hout] Hdet.
    rewrite list_lookup_fmap in Hfname.
    destruct (idxs !! j) as [k'|] eqn:Hk'; [|done].
    simpl in Hfname. injection Hfname as <-.
    split.
    { intros k'' [= <-] c Hc.
      destruct (detect_on_content (space_name k') w0 c) as [Hsum _].
      { unfold target_path in *. by rewrite Hsave. }
      rewrite Hdet in Hsum. simpl in Hsum. by injection Hsum. }
    split.
    { intros j'. simpl. rewrite <-Hsave.
      pose proof (detect_fs (space_name k') w0 (target_path j')) as Hw.
      rewrite Hdet in Hw. apply Hw.
      intros Heq. symmetry in Heq. by apply detected_path_ne in Heq. }
    simpl. rewrite Hk'. simpl.
    destruct (decide (k' = k)) as [->|Hne].
    + rewrite bool_decide_eq_true_2 by (by left).
      destruct (detect_on_content (space_name k) w0 content) as [_ Hcopy].
      { unfold target_path in *. by rewrite Hsave. }
      rewrite Hdet in Hcopy. simpl in Hcopy. rewrite Hcopy.
      destruct (annotated_copy (space_name k) content); [done|].
      rewrite Hout. by case_bool_decide.
    + pose proof (detect_fs (space_name k') w0
                    (output_path (space_name k))) as Hw.
      rewrite Hdet in Hw. simpl in Hw. rewrite Hw, Hout.
      2:{ intros Heq%output_path_inj. done. }
      rewrite (bool_decide_ext (k ∈ k' :: _) (k ∈ (λ i, default 0 (idxs !! i)) <$> fin));
        [done|].
      rewrite elem_of_cons. split; [intros [?|?]; [congruence|done]|by right].
  - eexists _, _. split; [exact Hrun|]. simpl. split.
    + destruct (lookup_lt_is_Some_2 summaries i) as [s Hs].
      { rewrite Hlen, length_fmap. by eapply lookup_lt_Some. }
      rewrite Hs. f_equal. by eapply Hres.
    + rewrite Hout. rewrite bool_decide_eq_true_2; [done|].
      apply list_elem_of_fmap. exists i. rewrite Hk. split; [done|].
      rewrite Horder, length_fmap. apply elem_of_seq.
      apply lookup_lt_Some in Hk. lia.
Qed.

(** X9: for a downloaded file that is on disk when the Analysis Stage
    starts, the summary at its index and the annotated copy are those of
    its content, whatever the completion order: the summary is the error
    string or the count of keypoints of the decoded content, and
    [detected_<name>] holds what [cv2.imwrite] made of the annotated
    image (it is left as it was when the content does not load or the
    writer gives up). *)
Theorem analysis_of_content (idxs : list nat) sched w i k content :
  idxs !! i = Some k →
  fs w !! target_path k = Some content →
  ∃ summaries w',
    analysis_stage (space_name <$> idxs) sched w = (Ret summaries, w') ∧
    summaries !! i = Some (summary_of_body (space_name k) content) ∧
    fs w' !! output_path (space_name k)
    = match annotated_copy (space_name k) content with
      | Some copy => Some copy
      | None => fs w !! output_path (space_name k)
      end.
Proof. apply analysis_stage_content. Qed.

End analysis_effects.

(** ** The metadata step and whole runs *)

Section whole_run.
Context {ext : Externals}.

Lemma image_items_success (data : list jvalue) :
  (∃ items, image_items data = inr items) ↔
  Forall (λ v, ∃ m, v = JObj m) data.
Proof.
  induction data as [|v data IH]; simpl.
  { split; [by constructor|by eexists]. }
  split.
  - intros [items Hitems]. destruct v; try done.
    destruct (image_items data) as [e|rest] eqn:Hrest; [done|].
    constructor; [by eexists|]. apply IH. by eexists.
  - intros [[m ->] Hdata]%Forall_cons.
    apply IH in Hdata as [rest ->]. by eexists.
Qed.

(** X10: the image filter of line 78 goes through exactly when the JSON
    body is an array whose elements are all objects, or an empty object,
    or an empty string; on any other body (an error object, an array
    with a string or a number in it, [null], a number) it raises, and
    the run ends before any download. *)
Theorem filter_accepts (data : jvalue) :
  (∃ items, valid_items_of data = inr items) ↔
  (∃ l, data = JArr l ∧ Forall (λ v, ∃ m, v = JObj m) l) ∨
  data = JObj ∅ ∨ data = JStr "".
Proof.
  split.
  - intros [items Hitems]. destruct data as [| | | |s|l|m]; try done.
    + right. right. simpl in Hitems.
      destruct (String.eqb_spec s "") as [->|]; [done|done].
    + left. exists l. split; [done|].
      apply image_items_success. by eexists.
    + right. left. simpl in Hitems. case_bool_decide; [by subst|done].
  - intros [(l & -> & Hl)|[->| ->]].
    + by apply image_items_success.
    + by eexists.
    + by eexists.
Qed.

Lemma fetch_run session (items : list (gmap string jvalue)) response w :
  get session (JStr BASE_URL)
    [("api_key", JStr NASA_API_KEY); ("count", JInt 10)] = inr response →
  json response = inr (JArr (JObj <$> items)) →
  fetch_valid_items session w
  = (Ret (filter is_image items),
     set_requests (λ sent, sent ++ [JStr BASE_URL]) w).
Proof.
  intros Hget Hjson.
  unfold fetch_valid_items, session_get, mbind, M_bind, bind, lift.
  rewrite Hget. simpl. rewrite Hjson. simpl.
  by rewrite image_items_objects.
Qed.

(** X11: when the metadata request raises, or its body is not JSON, or
    the filter raises on the body, [main] raises that same exception:
    the one request is all that has happened, nothing is printed, no bar
    is created and no file is written. *)
Theorem main_aborts_on_fetch_failure e sched_download sched_analysis w :
  fetch_raises ClientSession e →
  main sched_download sched_analysis w
  = (Raise e, set_requests (λ sent, sent ++ [JStr BASE_URL]) w).
Proof.
  intros Hfail. unfold main, fetch_valid_items, session_get.
  unfold mbind, M_bind, bind, lift.
  destruct Hfail as [Hget|response Hget Hjson|response data Hget Hjson Hdata];
    rewrite Hget; simpl; [done|..].
  - by rewrite Hjson.
  - rewrite Hjson. simpl. by rewrite Hdata.
Qed.

Lemma print_lines_run (lines : list string) w :
  foldr (λ line k, print line;; k) (mret ()) lines w
  = (Ret (), set_stdout (λ out, out ++ lines) w).
Proof.
  revert w. induction lines as [|line lines IH]; intros w; simpl.
  { unfold mret, M_ret, ret, set_stdout. destruct w. simpl.
    by rewrite app_nil_r. }
  rewrite (bind_run (print line) _ w () _ eq_refl), IH.
  unfold set_stdout. simpl. by rewrite <-app_assoc.
Qed.

Lemma print_summaries_run (summaries : list string) w :
  foldr (λ summary k, print ("🔍 " +:+ summary);; k) (mret ()) summaries w
  = (Ret (),
     set_stdout (λ out, out ++ ((λ summary, "🔍 " +:+ summary) <$> summaries))
       w).
Proof.
  revert w. induction summaries as [|s l IH]; intros w; simpl.
  { unfold mret, M_ret, ret, set_stdout. destruct w. simpl.
    by rewrite app_nil_r. }
  rewrite (bind_run (print _) _ w () _ eq_refl), IH.
  unfold set_stdout. simpl. by rewrite <-app_assoc.
Qed.

(** A run whose metadata step goes through, stage by stage. *)
Lemma main_run (items : list (gmap string jvalue)) response
    sched_download sched_analysis w :
  get ClientSession (JStr BASE_URL)
    [("api_key", JStr NASA_API_KEY); ("count", JInt 10)] = inr response →
  json response = inr (JArr (JObj <$> items)) →
  ∃ w3 summaries w5,
    download_stage ClientSession (filter is_image items) sched_download
      (set_stdout
         (λ out, out ++ [nl +:+ "📡 Requesting "
                         +:+ pretty (length (filter is_image items))
                         +:+ " images from NASA..."])
         (set_requests (λ sent, sent ++ [JStr BASE_URL]) w))
    = (Ret (imap (λ i item, fate_result (item_fate ClientSession i item)
                              (space_name i)) (filter is_image items)), w3) ∧
    analysis_stage
      (space_name <$> filter (λ i, saved_at ClientSession
                                     (filter is_image items) i)
                        (seq 0 (length (filter is_image items))))
      sched_analysis
      (set_stdout
         (λ out, out ++ [nl +:+ "🔭 Analyzing imagery with OpenCV on all CPU cores..."])
         w3)
    = (Ret summaries, w5) ∧
    main sched_download sched_analysis w
    = (Ret summaries,
       set_stdout
         (λ out, out ++ ((λ summary, "🔍 " +:+ summary) <$> summaries))
         (set_stdout (λ out, out ++ [nl +:+ "✨ Project Summary! 🚀"]) w5)).
Proof.
  intros Hget Hjson.
  set (kept := filter is_image items).
  set (w2 := set_stdout _ (set_requests _ w)).
  destruct (download_stage_run ClientSession kept sched_download w2)
    as [w3 Hdl].
  exists w3.
  set (w4 := set_stdout _ w3).
  set (files := space_name <$> _).
  destruct (analysis_stage_total files sched_analysis w4)
    as (summaries & w5 & Han & _).
  exists summaries, w5. split; [done|]. split; [done|].
  unfold main.
  rewrite (bind_run _ _ _ _ _ (fetch_run _ _ _ _ Hget Hjson)).
  erewrite bind_run by reflexivity. fold kept. fold w2.
  rewrite (bind_run _ _ _ _ _ Hdl).
  erewrite bind_run by reflexivity. fold w4.
  rewrite keep_saved_results. fold kept. fold files.
  rewrite (bind_run _ _ _ _ _ Han).
  erewrite bind_run by reflexivity.
  by rewrite (bind_run _ _ _ _ _ (print_summaries_run _ _)).
Qed.

End whole_run.

Section whole_run_outcomes.
Context {ext : Externals}.

(** The Download Stage writes to no path but those of its items. *)
Lemma download_stage_frame session (items : list (gmap string jvalue))
    sched w path :
  (∀ i, i < length items → path ≠ target_path i) →
  fs (download_stage session items sched w).2 !! path = fs w !! path.
Proof.
  intros Hpath.
  destruct (download_stage_inv (λ _ w', fs w' !! path = fs w !! path)
              session items sched w) as (w' & order & Hrun & _ & Hfs).
  - done.
  - done.
  - intros fin i item w0 Hitem _ Hd.
    rewrite download_image_fs; [done|].
    apply Hpath. by eapply lookup_lt_Some.
  - by rewrite Hrun.
Qed.

Lemma saved_at_body session (items : list (gmap string jvalue)) k :
  saved_at session items k →
  ∃ item content,
    items !! k = Some item ∧ item_fate session k item = Saved content ∧
    saved_body session items k = Some content.
Proof.
  unfold saved_at, saved_body, fate_at.
  destruct (items !! k) as [item|]; [|done]. simpl.
  destruct (item_fate session k item) as [c| |] eqn:Hfate; try done.
  intros _. by exists item, c.
Qed.

Lemma saved_body_at session (items : list (gmap string jvalue)) k content :
  saved_body session items k = Some content →
  saved_at session items k ∧
  ∃ item, items !! k = Some item ∧ item_fate session k item = Saved content.
Proof.
  unfold saved_at, saved_body, fate_at.
  destruct (items !! k) as [item|]; [|done]. simpl.
  destruct (item_fate session k item) as [c| |] eqn:Hfate; try done.
  intros [= ->]. split; [done|]. by exists item.
Qed.

(** The summaries of a whole run: one per saved image, in the order of
    the positions, each the summary of the body that was downloaded. *)
Lemma main_summaries (items : list (gmap string jvalue)) response
    sched_download sched_analysis w :
  get ClientSession (JStr BASE_URL)
    [("api_key", JStr NASA_API_KEY); ("count", JInt 10)] = inr response →
  json response = inr (JArr (JObj <$> items)) →
  let kept := filter is_image items in
  ∃ summaries w',
    main sched_download sched_analysis w = (Ret summaries, w') ∧
    Forall2
      (λ k s, ∃ content,
         saved_body ClientSession kept k = Some content ∧
         s = summary_of_body (space_name k) content)
      (filter (λ i, saved_at ClientSession kept i) (seq 0 (length kept)))
      summaries.
Proof.
  intros Hget Hjson kept.
  destruct (main_run items response sched_download sched_analysis w
              Hget Hjson) as (w3 & summaries & w5 & Hdl & Han & Hmain).
  fold kept in Hdl, Han.
  set (w2 := set_stdout _ (set_requests _ w)) in *.
  set (w4 := set_stdout _ w3) in *.
  eexists _, _. split; [exact Hmain|].
  set (idxs := filter _ (seq 0 (length kept))) in *.
  destruct (analysis_stage_saved idxs sched_analysis w4)
    as (summaries' & w5' & Han' & Hlen & _).
  rewrite Han in Han'. injection Han' as <- <-.
  apply Forall2_same_length_lookup. split; [done|].
  intros i k s Hk Hs.
  assert (saved_at ClientSession kept k) as Hsaved.
  { apply list_elem_of_lookup_2 in Hk.
    by apply list_elem_of_filter in Hk as [? _]. }
  destruct (saved_at_body _ _ _ Hsaved) as (item & c & Hitem & Hfate & Hbody).
  exists c. split; [done|].
  pose proof (download_stage_files ClientSession kept sched_download w2 k
                item c Hitem Hfate) as Hfile.
  rewrite Hdl in Hfile. simpl in Hfile.
  destruct (analysis_stage_content idxs sched_analysis w4 i k c Hk Hfile)
    as (summaries' & w5' & Han' & Hsum & _).
  rewrite Han in Han'. injection Han' as <- <-. congruence.
Qed.


(** X12: when the metadata step goes through, [main] ends normally and
    the summaries it collects do not depend on the order in which
    downloads or analysis jobs complete, nor on what was on disk before:
    there is one summary per saved image, in the order of the positions,
    and each is the summary of the body that was downloaded. *)
Theorem run_summaries (items : list (gmap string jvalue)) response
    sched_download sched_analysis w :
  get ClientSession (JStr BASE_URL)
    [("api_key", JStr NASA_API_KEY); ("count", JInt 10)] = inr response →
  json response = inr (JArr (JObj <$> items)) →
  let kept := filter is_image items in
  ∃ summaries w',
    main sched_download sched_analysis w = (Ret summaries, w') ∧
    Forall2
      (λ k s, ∃ content,
         saved_body ClientSession kept k = Some content ∧
         s = summary_of_body (space_name k) content)
      (filter (λ i, saved_at ClientSession kept i) (seq 0 (length kept)))
      summaries.
Proof. apply main_summaries. Qed.

(** X13: the console of such a run, in full and line by line: the lines
    that were there, the header with the number of image items, the
    lines of the downloads that were not saved, in the order in which the
    downloads completed (the status line of a non-200 answer, the error
    line of an exception), the two headers of the second half, and one
    line per saved image, in the order of the positions, with the summary
    of the body that was downloaded. *)
Theorem run_console (items : list (gmap string jvalue)) response
    sched_download sched_analysis w :
  get ClientSession (JStr BASE_URL)
    [("api_key", JStr NASA_API_KEY); ("count", JInt 10)] = inr response →
  json response = inr (JArr (JObj <$> items)) →
  let kept := filter is_image items in
  ∃ summaries w',
    main sched_download sched_analysis w = (Ret summaries, w') ∧
    stdout w'
    = stdout w
      ++ [nl +:+ "📡 Requesting " +:+ pretty (length kept)
          +:+ " images from NASA..."]
      ++ omap (failure_line_at ClientSession kept)
           (completion_order sched_download (length kept))
      ++ [nl +:+ "🔭 Analyzing imagery with OpenCV on all CPU cores...";
          nl +:+ "✨ Project Summary! 🚀"]
      ++ ((λ summary, "🔍 " +:+ summary) <$> summaries) ∧
    Forall2
      (λ k s, ∃ content,
         saved_body ClientSession kept k = Some content ∧
         s = summary_of_body (space_name k) content)
      (filter (λ i, saved_at ClientSession kept i) (seq 0 (length kept)))
      summaries.
Proof.
  intros Hget Hjson kept.
  destruct (main_summaries items response sched_download sched_analysis w
              Hget Hjson) as (summaries' & w'' & Hrun & Hsum).
  destruct (main_run items response sched_download sched_analysis w
              Hget Hjson) as (w3 & summaries & w5 & Hdl & Han & Hmain).
  rewrite Hmain in Hrun. injection Hrun as <- <-.
  fold kept in Hdl, Han, Hsum.
  set (w2 := set_stdout _ (set_requests _ w)) in *.
  set (w4 := set_stdout _ w3) in *.
  pose proof (download_stage_stdout_order ClientSession kept sched_download
                w2) as Hout3.
  rewrite Hdl in Hout3. simpl in Hout3.
  set (files := space_name <$> _) in *.
  pose proof (analysis_stage_stdout files sched_analysis w4) as Hout5.
  rewrite Han in Hout5. simpl in Hout5.
  eexists _, _. split; [exact Hmain|]. split; [|exact Hsum].
  simpl. rewrite Hout5, Hout3. by rewrite <-!app_assoc.
Qed.

(** X14: such a run leaves the bars that existed as they were and adds
    two closed bars: the download bar, with the number of image items as
    total and that number minus the number of non-200 answers as count,
    and the analysis bar, whose total and count are the number of saved
    images. *)
Theorem run_bars (items : list (gmap string jvalue)) response
    sched_download sched_analysis w :
  get ClientSession (JStr BASE_URL)
    [("api_key", JStr NASA_API_KEY); ("count", JInt 10)] = inr response →
  json response = inr (JArr (JObj <$> items)) →
  let kept := filter is_image items in
  let saved := length (filter (λ i, saved_at ClientSession kept i)
                         (seq 0 (length kept))) in
  let refused := length (filter (λ i, refused_at ClientSession kept i)
                           (seq 0 (length kept))) in
  bars (main sched_download sched_analysis w).2
  = bars w
    ++ [Tqdm (length kept) "Downloading" "img" (length kept - refused) true;
        Tqdm saved "Analyzing" "img" saved true].
Proof.
  intros Hget Hjson kept saved refused.
  destruct (main_run items response sched_download sched_analysis w
              Hget Hjson) as (w3 & summaries & w5 & Hdl & Han & Hmain).
  fold kept in Hdl, Han.
  set (w2 := set_stdout _ (set_requests _ w)) in *.
  set (w4 := set_stdout _ w3) in *.
  rewrite Hmain. simpl.
  set (files := space_name <$> _) in *.
  pose proof (analysis_stage_bars files sched_analysis w4) as Hb5.
  rewrite Han in Hb5. simpl in Hb5. rewrite Hb5.
  pose proof (download_stage_bars ClientSession kept sched_download w2)
    as Hb3.
  rewrite Hdl in Hb3. simpl in Hb3. rewrite Hb3.
  unfold files. rewrite length_fmap. by rewrite <-app_assoc.
Qed.

(** X15: the request log of such a run, in full and in order: the
    requests that were sent before the run, then the metadata request,
    then exactly one request per image item of the response, in the order
    of the items whatever the order in which the downloads complete, to
    the item's [hdurl] when that is truthy and to its [url] otherwise;
    items that are not images cause no request, and neither does the
    Analysis Stage. *)
Theorem run_network (items : list (gmap string jvalue)) response
    sched_download sched_analysis w :
  get ClientSession (JStr BASE_URL)
    [("api_key", JStr NASA_API_KEY); ("count", JInt 10)] = inr response →
  json response = inr (JArr (JObj <$> items)) →
  requests (main sched_download sched_analysis w).2
  = requests w ++ JStr BASE_URL :: (item_url <$> filter is_image items).
Proof. apply main_requests. Qed.

(** X16: when such a run is over, every saved image is on disk under
    [space_<k>.jpg] with the whole body that was downloaded, and
    [detected_space_<k>.jpg] holds the annotated copy made from that
    body (it is as it was before the run when the body does not load or
    the writer gives up). *)
Theorem run_files (items : list (gmap string jvalue)) response
    sched_download sched_analysis w k content :
  get ClientSession (JStr BASE_URL)
    [("api_key", JStr NASA_API_KEY); ("count", JInt 10)] = inr response →
  json response = inr (JArr (JObj <$> items)) →
  saved_body ClientSession (filter is_image items) k = Some content →
  fs (main sched_download sched_analysis w).2 !! target_path k
  = Some content ∧
  fs (main sched_download sched_analysis w).2 !! output_path (space_name k)
  = match annotated_copy (space_name k) content with
    | Some copy => Some copy
    | None => fs w !! output_path (space_name k)
    end.
Proof.
  intros Hget Hjson Hbody.
  destruct (main_run items response sched_download sched_analysis w
              Hget Hjson) as (w3 & summaries & w5 & Hdl & Han & Hmain).
  set (kept := filter is_image items) in *.
  set (idxs := filter _ (seq 0 (length kept))) in *.
  set (w2 := set_stdout _ (set_requests _ w)) in *.
  set (w4 := set_stdout _ w3) in *.
  destruct (saved_body_at _ _ _ _ Hbody) as (Hsaved & item & Hitem & Hfate).
  pose proof (download_stage_files ClientSession kept sched_download w2 k
                item content Hitem Hfate) as Hfile.
  rewrite Hdl in Hfile. simpl in Hfile.
  assert (k ∈ idxs) as Hin.
  { apply list_elem_of_filter. split; [done|].
    apply elem_of_seq. apply lookup_lt_Some in Hitem. lia. }
  apply list_elem_of_lookup_1 in Hin as [i Hi].
  destruct (analysis_stage_content idxs sched_analysis w4 i k content Hi
              Hfile) as (summaries' & w5' & Han' & _ & Hcopy).
  rewrite Han in Han'. injection Han' as <- <-.
  rewrite Hmain. simpl. split.
  - pose proof (analysis_stage_frame (space_name <$> idxs) sched_analysis
                  w4 (target_path k)) as Hframe.
    rewrite Han in Hframe. simpl in Hframe. rewrite Hframe; [done|].
    intros fname (k' & -> & _)%list_elem_of_fmap Heq.
    symmetry in Heq. by apply detected_path_ne in Heq.
  - rewrite Hcopy. simpl.
    pose proof (download_stage_frame ClientSession kept sched_download w2
                  (output_path (space_name k))) as Hframe.
    rewrite Hdl in Hframe. simpl in Hframe. rewrite Hframe; [done|].
    intros j _. apply detected_path_ne.
Qed.

End whole_run_outcomes.

(** ** Concrete runs for the further properties *)

(** X2 on a concrete run: the write of the only download fails after one
    byte, and that byte is what the file holds. *)
Lemma download_stage_disk_witness :
  fs (download_stage (ext := Demo.externals_disk_fault) Demo.demo_session
        [Demo.item_good] [] Demo.world0).2
  = {[ "images/space_0.jpg" := [Byte.x01] ]}.
Proof.
  rewrite (download_stage_disk (ext := Demo.externals_disk_fault)).
  vm_compute. reflexivity.
Defined.

(** X5 on a concrete call: a download that is answered with 200. *)
Lemma download_image_contract_witness :
  ∃ w',
    download_image (ext := Demo.externals) Demo.demo_session
      (JStr Demo.good_url) "space_0.jpg" 0 Demo.world0
    = (Ret (Some "space_0.jpg"), w') ∧
    fs w' !! "images/space_0.jpg" = Some [Byte.x01; Byte.x02].
Proof.
  destruct (download_image_contract (ext := Demo.externals)
              Demo.demo_session (JStr Demo.good_url) "space_0.jpg" 0
              Demo.world0) as (r & w' & Hrun & Hsaved & _).
  destruct (Hsaved (Response 200 (inr [Byte.x01; Byte.x02])
                      (inl "not JSON")) [Byte.x01; Byte.x02])
    as [-> Hfile]; [reflexivity..|].
  exists w'. split; [exact Hrun|exact Hfile].
Defined.

(** X8 on a concrete run: the downloads are as they were after the
    analysis of both. *)
Lemma analysis_stage_writes_witness :
  fs (analysis_stage (ext := Demo.externals)
        ["space_0.jpg"; "space_1.jpg"] [1] Demo.world_two).2
    !! "images/space_1.jpg"
  = Some [Byte.x01].
Proof.
  exact (proj2 (analysis_stage_writes (ext := Demo.externals)
                  ["space_0.jpg"; "space_1.jpg"] [1] Demo.world_two)
           (ex_intro _ [0; 1] eq_refl) 1).
Defined.

(** X9 on a concrete run: the second of two files, analysed first. *)
Lemma analysis_of_content_witness :
  ∃ summaries w',
    analysis_stage (ext := Demo.externals) ["space_0.jpg"; "space_1.jpg"]
      [1] Demo.world_two = (Ret summaries, w') ∧
    summaries !! 1 = Some "Found 1 stars in space_1.jpg" ∧
    fs w' !! "processed/detected_space_1.jpg" = Some [Byte.x01].
Proof.
  exact (analysis_of_content (ext := Demo.externals) [0; 1] [1]
           Demo.world_two 1 1 [Byte.x01] eq_refl eq_refl).
Defined.

(** X11 on a concrete run: the API host cannot be reached. *)
Lemma main_aborts_on_fetch_failure_witness :
  main (ext := Demo.externals_offline) [] [] Demo.world0
  = (Raise "Cannot connect to host",
     set_requests (λ sent, sent ++ [JStr "https://down.example/planetary/apod"])
       Demo.world0).
Proof.
  apply (main_aborts_on_fetch_failure (ext := Demo.externals_offline)).
  apply (fetch_get_raises (ext := Demo.externals_offline)).
  vm_compute. reflexivity.
Defined.

(** X12 on a concrete run: of three images and a video, one image is
    saved and analysed. *)
Lemma run_summaries_witness :
  ∃ w',
    main (ext := Demo.externals) [2; 0] [0] Demo.world0
    = (Ret ["Found 2 stars in space_0.jpg"], w').
Proof.
  destruct (run_summaries (ext := Demo.externals)
              [Demo.item_good; Demo.item_video; Demo.item_gone;
               Demo.item_down]
              (Response 200 (inr []) (inr Demo.data)) [2; 0] [0] Demo.world0)
    as (summaries & w' & Hrun & Hsum).
  - vm_compute. reflexivity.
  - reflexivity.
  - exists w'.
    apply Forall2_cons_inv_l in Hsum as (s0 & rest & (c & Hc & ->) & Hsum & ->).
    apply Forall2_nil_inv_l in Hsum as ->.
    vm_compute in Hc. injection Hc as <-. exact Hrun.
Defined.

(** X13 on the same run, where the download that cannot connect
    completes before the one that is answered with 404: the six lines. *)
Lemma run_console_witness :
  ∃ w',
    main (ext := Demo.externals) [2; 0] [0] Demo.world0
    = (Ret ["Found 2 stars in space_0.jpg"], w') ∧
    stdout w'
    = [nl +:+ "📡 Requesting 3 images from NASA...";
       "Error downloading space_2.jpg: Cannot connect to host";
       "Failed to download space_1.jpg: 404";
       nl +:+ "🔭 Analyzing imagery with OpenCV on all CPU cores...";
       nl +:+ "✨ Project Summary! 🚀";
       "🔍 Found 2 stars in space_0.jpg"].
Proof.
  destruct (run_console (ext := Demo.externals)
              [Demo.item_good; Demo.item_video; Demo.item_gone;
               Demo.item_down]
              (Response 200 (inr []) (inr Demo.data)) [2; 0] [0] Demo.world0)
    as (summaries & w' & Hrun & Hout & Hsum).
  - vm_compute. reflexivity.
  - reflexivity.
  - exists w'.
    apply Forall2_cons_inv_l in Hsum as (s0 & rest & (c & Hc & ->) & Hsum & ->).
    apply Forall2_nil_inv_l in Hsum as ->.
    vm_compute in Hc. injection Hc as <-.
    split; [exact Hrun|]. rewrite Hout. vm_compute. reflexivity.
Defined.

(** X14 on the same run: the download bar stops at 2 of 3, since one
    answer was a 404; the analysis bar is at 1 of 1. *)
Lemma run_bars_witness :
  bars (main (ext := Demo.externals) [2; 0] [0] Demo.world0).2
  = [Tqdm 3 "Downloading" "img" 2 true; Tqdm 1 "Analyzing" "img" 1 true].
Proof.
  rewrite (run_bars (ext := Demo.externals)
             [Demo.item_good; Demo.item_video; Demo.item_gone;
              Demo.item_down]
             (Response 200 (inr []) (inr Demo.data)) [2; 0] [0] Demo.world0).
  - vm_compute. reflexivity.
  - vm_compute. reflexivity.
  - reflexivity.
Defined.

(** X15 on the same run: four requests, none for the video; the download
    of the last item completes first, and its request is still the last
    one. *)
Lemma run_network_witness :
  requests (main (ext := Demo.externals) [2; 0] [0] Demo.world0).2
  = [JStr Demo.api_url; JStr Demo.good_url; JStr Demo.gone_url;
     JStr "https://down.example/b.jpg"].
Proof.
  rewrite (run_network (ext := Demo.externals)
             [Demo.item_good; Demo.item_video; Demo.item_gone;
              Demo.item_down]
             (Response 200 (inr []) (inr Demo.data)) [2; 0] [0] Demo.world0).
  - vm_compute. reflexivity.
  - vm_compute. reflexivity.
  - reflexivity.
Defined.

(** X16 on the same run: the saved image and its annotated copy. *)
Lemma run_files_witness :
  fs (main (ext := Demo.externals) [2; 0] [0] Demo.world0).2
    !! "images/space_0.jpg" = Some [Byte.x01; Byte.x02] ∧
  fs (main (ext := Demo.externals) [2; 0] [0] Demo.world0).2
    !! "processed/detected_space_0.jpg" = Some [Byte.x01; Byte.x02].
Proof.
  apply (run_files (ext := Demo.externals)
           [Demo.item_good; Demo.item_video; Demo.item_gone; Demo.item_down]
           (Response 200 (inr []) (inr Demo.data)) [2; 0] [0] Demo.world0
           0 [Byte.x01; Byte.x02]).
  - vm_compute. reflexivity.
  - reflexivity.
  - vm_compute. reflexivity.
Defined.
